(** * Tic-Tac-Toe session manager: board engine, rooms, matchmaking, rematch

    A shallow embedding of [src/game/gameLogic.ts] and
    [src/game/gameManager.ts], with the types of [src/types/index.ts] and
    the players table of [src/database/database.ts].

    Modelling conventions.
    - JavaScript [null] is [None] in [CellValue] and [GameResult].
    - A [Player] is a JavaScript object that the caller hands to the manager
      and that the manager mutates in place ([symbol], [isReady]).  One
      object may sit in several player lists, or twice in one.  Objects
      therefore live in a store indexed by references, and a game holds
      references.
    - [uuidv4()] and [Math.random()] are inputs: every operation that calls
      them takes the values they return as arguments.
    - [createdAt] and [updatedAt] are wall-clock stamps that no operation
      reads; they are left out of [GameState].
    - Move coordinates are JavaScript numbers used as array indices; they
      are integers here. *)

From Stdlib Require Import ZArith.
From stdpp Require Import strings gmap fin_maps functions list.

Set Warnings "-clear-no-such-hyp".
Open Scope Z_scope.

(** ** Types ([src/types/index.ts]) *)

Inductive Mark := X | O.

#[global] Instance Mark_eq_dec : EqDecision Mark.
Proof. solve_decision. Defined.

(** ['X' | 'O' | null] *)
Abbreviation CellValue := (option Mark).

(** [CellValue[][]] *)
Abbreviation GameBoard := (list (list CellValue)).

Inductive GameStatus := waiting | playing | finished.

#[global] Instance GameStatus_eq_dec : EqDecision GameStatus.
Proof. solve_decision. Defined.

(** ['X' | 'O' | 'draw' | null]: the non-null results are a [Verdict]. *)
Inductive Verdict := Win (m : Mark) | Draw.

#[global] Instance Verdict_eq_dec : EqDecision Verdict.
Proof. solve_decision. Defined.

Abbreviation GameResult := (option Verdict).

Record TelegramUser := {
  user_id : Z;
  first_name : string;
  user_username : option string
}.

Record Player := {
  player_id : string;
  telegramId : Z;
  username : string;
  symbol : Mark;
  isReady : bool
}.

(** References to [Player] objects, and the store that holds them. *)
Abbreviation ref := nat.
Abbreviation Store := (ref → Player).

Record GameState := {
  game_id : string;
  players : list ref;
  board : GameBoard;
  currentPlayer : Mark;
  status : GameStatus;
  result : GameResult
}.

Record GameRoom := {
  room_id : string;
  game : GameState;
  spectators : list string
}.

Definition set_symbol (p : Player) (m : Mark) : Player :=
  {| player_id := player_id p; telegramId := telegramId p;
     username := username p; symbol := m; isReady := isReady p |}.

Definition set_isReady (p : Player) (b : bool) : Player :=
  {| player_id := player_id p; telegramId := telegramId p;
     username := username p; symbol := symbol p; isReady := b |}.

(** [m === 'X' ? 'O' : 'X'] *)
Definition other (m : Mark) : Mark :=
  match m with X => O | O => X end.

(** [board[row][col]]: [None] is [undefined], the answer of JavaScript to
    an index outside an array.  (When the row itself is missing JavaScript
    throws instead; no 3x3 board gets there.) *)
Definition cellAt (b : GameBoard) (row col : nat) : option CellValue :=
  b !! row ≫= (.!! col).

(** The first result of a [for] loop whose body may [return]. *)
Fixpoint scan {I A} (body : I → option A) (indices : list I) : option A :=
  match indices with
  | [] => None
  | i :: rest =>
      match body i with
      | Some a => Some a
      | None => scan body rest
      end
  end.

(** [players.find(p => p.id === playerId)] *)
Definition find_player (st : Store) (ps : list ref) (playerId : string) : option ref :=
  find (λ r, bool_decide (player_id (st r) = playerId)) ps.

(** [queue.indexOf(x)] followed by [queue.splice(index, 1)] when found. *)
Fixpoint remove_first (x : string) (q : list string) : list string :=
  match q with
  | [] => []
  | y :: rest => if bool_decide (y = x) then rest else y :: remove_first x rest
  end.

(** ** Board engine and game rules ([src/game/gameLogic.ts]) *)

Module GameLogic.

Definition createEmptyBoard : GameBoard :=
  [ [None; None; None];
    [None; None; None];
    [None; None; None] ].

(** [player1.symbol = ...; player2.symbol = ...] are two writes through
    two references, in this order. *)
Definition createNewGame (st : Store) (player1 player2 : ref)
    (isPlayer1X : bool) (uuid : string) : Store * GameState :=
  let st1 := <[player1 := set_symbol (st player1) (if isPlayer1X then X else O)]> st in
  let st2 := <[player2 := set_symbol (st1 player2) (if isPlayer1X then O else X)]> st1 in
  (st2,
   {| game_id := uuid;
      players := [player1; player2];
      board := createEmptyBoard;
      currentPlayer := X;
      status := playing;
      result := None |}).

Definition isValidMove (b : GameBoard) (row col : Z) : bool :=
  if (row <? 0) || (row >? 2) || (col <? 0) || (col >? 2) then false
  else bool_decide (cellAt b (Z.to_nat row) (Z.to_nat col) = Some None).

(** [a && a === b && b === c], answering the mark [a] when it holds. *)
Definition line3 (a b c : option CellValue) : option Mark :=
  match a with
  | Some (Some m) =>
      if bool_decide (a = b) && bool_decide (b = c) then Some m else None
  | _ => None
  end.

Definition isBoardFull (b : GameBoard) : bool :=
  forallb (forallb (λ cell : CellValue, bool_decide (cell ≠ None))) b.

Definition checkGameResult (b : GameBoard) : GameResult :=
  match scan (λ row, line3 (cellAt b row 0) (cellAt b row 1) (cellAt b row 2))
             [0; 1; 2]%nat with
  | Some m => Some (Win m)
  | None =>
  match scan (λ col, line3 (cellAt b 0 col) (cellAt b 1 col) (cellAt b 2 col))
             [0; 1; 2]%nat with
  | Some m => Some (Win m)
  | None =>
  match line3 (cellAt b 0 0) (cellAt b 1 1) (cellAt b 2 2) with
  | Some m => Some (Win m)
  | None =>
  match line3 (cellAt b 0 2) (cellAt b 1 1) (cellAt b 2 0) with
  | Some m => Some (Win m)
  | None => if isBoardFull b then Some Draw else None
  end end end end.

(** [board[row][col] = v] *)
Definition setCell (b : GameBoard) (row col : nat) (v : CellValue) : GameBoard :=
  alter (λ r, <[col := v]> r) row b.

(** [{ success: true }] is [None]; [{ success: false, error }] is
    [Some error].  The game comes back as the call leaves it. *)
Definition makeMove (st : Store) (g : GameState) (playerId : string)
    (row col : Z) : option string * GameState :=
  if bool_decide (status g ≠ playing) then (Some "Game is not active", g)
  else
    match find_player st (players g) playerId with
    | None => (Some "Player not found", g)
    | Some r =>
        let player := st r in
        if bool_decide (symbol player ≠ currentPlayer g) then (Some "Not your turn", g)
        else if negb (isValidMove (board g) row col) then (Some "Invalid move", g)
        else
          let board' := setCell (board g) (Z.to_nat row) (Z.to_nat col)
                                (Some (symbol player)) in
          match checkGameResult board' with
          | Some v =>
              (None,
               {| game_id := game_id g; players := players g; board := board';
                  currentPlayer := currentPlayer g;
                  status := finished; result := Some v |})
          | None =>
              (None,
               {| game_id := game_id g; players := players g; board := board';
                  currentPlayer := other (currentPlayer g);
                  status := status g; result := result g |})
          end
    end.

(** The body of [game.players.forEach(...)] in [resetGame]. *)
Definition swap_and_clear (st : Store) (r : ref) : Store :=
  <[r := set_isReady (set_symbol (st r) (other (symbol (st r)))) false]> st.

(** [a || d] for a [CellValue] [a]. *)
Definition or_else (a : CellValue) (d : Mark) : Mark :=
  match a with Some m => m | None => d end.

Definition resetGame (st : Store) (g : GameState) (uuid : string)
    : Store * GameState :=
  let newStartingPlayer : CellValue := Some (other (currentPlayer g)) in
  let st' := foldl swap_and_clear st (players g) in
  (st',
   {| game_id := uuid;
      players := players g;
      board := createEmptyBoard;
      currentPlayer := or_else newStartingPlayer X;
      status := playing;
      result := None |}).

Record GameStats := {
  totalMoves : Z;
  movesLeft : Z;
  isGameActive : bool
}.

(** The two nested [for] loops count the cells that are [!== null]. *)
Definition getGameStats (b : GameBoard) : GameStats :=
  let totalMoves :=
    foldl (λ total row,
             foldl (λ total col,
                      if bool_decide (cellAt b row col ≠ Some None)
                      then total + 1 else total)
                   total [0; 1; 2]%nat)
          0 [0; 1; 2]%nat in
  {| totalMoves := totalMoves;
     movesLeft := 9 - totalMoves;
     isGameActive := bool_decide (checkGameResult b = None) |}.

End GameLogic.

(** ** The persistence sink ([src/database/database.ts], seen from its caller)

    [GameManager] awaits two methods of the sink.  Each call either
    resolves or rejects; what the sink answers may depend on everything
    that happened before in the same request, which is the trace. *)

Inductive DbOutcome := Resolved | Rejected.

Inductive Event :=
| SaveGame (g : GameState) (player1Id player2Id : Z)
| UpdatePlayerStats (id : Z) (outcome : string)
| ConsoleError (message : string).

Definition DatabaseManager := list Event → Event → DbOutcome.

(** A block of an [async] function: it extends the trace and either
    completes with a value or throws. *)
Definition Async (A : Type) := DatabaseManager → list Event → list Event * option A.

Definition ret {A} (a : A) : Async A := λ _ tr, (tr, Some a).

Definition throw {A} : Async A := λ _ tr, (tr, None).

Definition bind {A B} (m : Async A) (k : A → Async B) : Async B :=
  λ db tr,
    match m db tr with
    | (tr', Some a) => k a db tr'
    | (tr', None) => (tr', None)
    end.

Notation "'let*' x ':=' m 'in' k" := (bind m (λ x, k))
  (at level 10, x name, m at level 100, k at level 200).

(** [await this.db.method(...)] *)
Definition await (call : Event) : Async unit :=
  λ db tr,
    match db tr call with
    | Resolved => (tr ++ [call], Some tt)
    | Rejected => (tr ++ [call], None)
    end.

(** Reading a property of [o]: a [TypeError] when [o] is [undefined]. *)
Definition defined {A} (o : option A) : Async A :=
  match o with Some a => ret a | None => throw end.

(** [try { body } catch (error) { console.error(message, error) }] *)
Definition try_catch (body : Async unit) (message : string) : Async unit :=
  λ db tr,
    match body db tr with
    | (tr', Some _) => (tr', Some tt)
    | (tr', None) => (tr' ++ [ConsoleError message], Some tt)
    end.

(** A block completes when no sink and no earlier trace make it throw. *)
Definition completes (m : Async unit) : Prop :=
  ∀ db tr, ∃ tr', m db tr = (tr', Some tt).

(** ** Rooms, matchmaking and rematch ([src/game/gameManager.ts]) *)

Module GameManager.

Record State := {
  rooms : gmap string GameRoom;
  playerRooms : gmap string string;
  matchmakingQueue : list string;
  objects : Store
}.

(** [{ success: true, room }] or [{ success: false, error }] *)
Inductive Result := Success (room : GameRoom) | Failure (error : string).

Definition empty (st : Store) : State :=
  {| rooms := ∅; playerRooms := ∅; matchmakingQueue := []; objects := st |}.

Definition with_game (room : GameRoom) (g : GameState) : GameRoom :=
  {| room_id := room_id room; game := g; spectators := spectators room |}.

(** [roomId] and [gameId] are the two [uuidv4()] results, in call order. *)
Definition createRoom (s : State) (player : ref) (roomId gameId : string)
    : string * State :=
  let g := {| game_id := gameId;
              players := [player];
              board := GameLogic.createEmptyBoard;
              currentPlayer := X;
              status := waiting;
              result := None |} in
  let room := {| room_id := roomId; game := g; spectators := [] |} in
  (roomId,
   {| rooms := <[roomId := room]> (rooms s);
      playerRooms := <[player_id (objects s player) := roomId]> (playerRooms s);
      matchmakingQueue := matchmakingQueue s;
      objects := objects s |}).

Definition joinRoom (s : State) (roomId : string) (player : ref)
    (isPlayer1X : bool) (gameId : string) : Result * State :=
  match rooms s !! roomId with
  | None => (Failure "Room not found", s)
  | Some room =>
      if bool_decide (2 ≤ length (players (game room)))%nat then
        let room' := {| room_id := room_id room; game := game room;
                        spectators := spectators room ++ [player_id (objects s player)] |} in
        (Success room',
         {| rooms := <[roomId := room']> (rooms s);
            playerRooms := playerRooms s;
            matchmakingQueue := matchmakingQueue s;
            objects := objects s |})
      else
        let g := game room in
        let g1 := {| game_id := game_id g; players := players g ++ [player];
                     board := board g; currentPlayer := currentPlayer g;
                     status := status g; result := result g |} in
        let '(st', g2) :=
          match players g1 with
          | [player1; player2] =>
              GameLogic.createNewGame (objects s) player1 player2 isPlayer1X gameId
          | _ => (objects s, g1)
          end in
        let room' := with_game room g2 in
        (Success room',
         {| rooms := <[roomId := room']> (rooms s);
            playerRooms := <[player_id (objects s player) := roomId]> (playerRooms s);
            matchmakingQueue := matchmakingQueue s;
            objects := st' |})
  end.

Definition set_queue (s : State) (q : list string) : State :=
  {| rooms := rooms s; playerRooms := playerRooms s;
     matchmakingQueue := q; objects := objects s |}.

(** [this.createRoom(player); this.matchmakingQueue.push(player.id);
    return { matched: false }] *)
Definition enqueueInNewRoom (s : State) (player : ref) (roomId gameId : string)
    : option GameRoom * State :=
  let '(_, s') := createRoom s player roomId gameId in
  (None, set_queue s' (matchmakingQueue s' ++ [player_id (objects s' player)])).

(** [Some room] is [{ matched: true, room }], [None] is [{ matched: false }].
    The path that joins draws [isPlayer1X] and [gameId]; the path that
    creates a room draws [roomId] and [gameId]. *)
Definition findMatch (s : State) (player : ref)
    (isPlayer1X : bool) (roomId gameId : string) : option GameRoom * State :=
  let s0 := set_queue s (remove_first (player_id (objects s player)) (matchmakingQueue s)) in
  match matchmakingQueue s0 with
  | waitingPlayerId :: rest =>
      let s1 := set_queue s0 rest in
      let attempt : option GameRoom * State :=
        match playerRooms s1 !! waitingPlayerId with
        | Some waitingPlayerRoom =>
            if bool_decide (waitingPlayerRoom = "") then (None, s1)
            else
              match rooms s1 !! waitingPlayerRoom with
              | Some room =>
                  if bool_decide (length (players (game room)) = 1%nat) then
                    match joinRoom s1 waitingPlayerRoom player isPlayer1X gameId with
                    | (Success room', s2) => (Some room', s2)
                    | (Failure _, s2) => (None, s2)
                    end
                  else (None, s1)
              | None => (None, s1)
              end
        | None => (None, s1)
        end in
      match attempt with
      | (Some room', s2) => (Some room', s2)
      | (None, s2) => enqueueInNewRoom s2 player roomId gameId
      end
  | [] => enqueueInNewRoom s0 player roomId gameId
  end.

Definition set_room (s : State) (roomId : string) (room : GameRoom) : State :=
  {| rooms := <[roomId := room]> (rooms s); playerRooms := playerRooms s;
     matchmakingQueue := matchmakingQueue s; objects := objects s |}.

(** [players.find(p => p.symbol === result)] and its negation. *)
Definition find_symbol (st : Store) (ps : list ref) (keep : Mark → bool) : option ref :=
  find (λ r, keep (symbol (st r))) ps.

Definition updatePlayerStats (st : Store) (g : GameState) : Async unit :=
  try_catch
    (let player1 := players g !! 0%nat in
     let player2 := players g !! 1%nat in
     match result g with
     | Some Draw =>
         let* p1 := defined player1 in
         let* _ := await (UpdatePlayerStats (telegramId (st p1)) "draw") in
         let* p2 := defined player2 in
         await (UpdatePlayerStats (telegramId (st p2)) "draw")
     | Some (Win m) =>
         let winner := find_symbol st (players g) (λ sy, bool_decide (sy = m)) in
         let loser := find_symbol st (players g) (λ sy, bool_decide (sy ≠ m)) in
         match winner, loser with
         | Some w, Some l =>
             let* _ := await (UpdatePlayerStats (telegramId (st w)) "win") in
             await (UpdatePlayerStats (telegramId (st l)) "loss")
         | _, _ => ret tt
         end
     | None => ret tt
     end)
    "Failed to update player stats:".

(** The tail of [makeMove], after the move was accepted: save the game,
    then record the outcome if the game is over. *)
Definition persist (st : Store) (g : GameState) : Async unit :=
  let* _ :=
    try_catch
      (let* p1 := defined (players g !! 0%nat) in
       let* p2 := defined (players g !! 1%nat) in
       await (SaveGame g (telegramId (st p1)) (telegramId (st p2))))
      "Failed to save game:" in
  if bool_decide (status g = finished)
  then updatePlayerStats st g
  else ret tt.

(** The game object is mutated in place, so the room holds what
    [GameLogic.makeMove] left, whether the move was accepted or not.
    The function is [async]: its promise resolves with a result
    ([Some]), or rejects when an exception escapes the body ([None]).
    The third component is what the sink and the console saw. *)
Definition makeMove (db : DatabaseManager) (s : State) (playerId : string)
    (row col : Z) : option Result * State * list Event :=
  match playerRooms s !! playerId with
  | None => (Some (Failure "Player not in any room"), s, [])
  | Some roomId =>
      if bool_decide (roomId = "") then (Some (Failure "Player not in any room"), s, [])
      else
        match rooms s !! roomId with
        | None => (Some (Failure "Room not found"), s, [])
        | Some room =>
            let '(moveResult, g') :=
              GameLogic.makeMove (objects s) (game room) playerId row col in
            let room' := with_game room g' in
            let s' := set_room s roomId room' in
            match moveResult with
            | Some error => (Some (Failure error), s', [])
            | None =>
                match persist (objects s') g' db [] with
                | (trace, Some _) => (Some (Success room'), s', trace)
                | (trace, None) => (None, s', trace)
                end
            end
        end
  end.

Definition mark_ready (st : Store) (r : ref) : Store :=
  <[r := set_isReady (st r) true]> st.

Definition handleRematch (s : State) (playerId : string) (gameId : string)
    : Result * State :=
  match playerRooms s !! playerId with
  | None => (Failure "Player not in any room", s)
  | Some roomId =>
      if bool_decide (roomId = "") then (Failure "Player not in any room", s)
      else
        match rooms s !! roomId with
        | None => (Failure "Room not found", s)
        | Some room =>
            if bool_decide (status (game room) ≠ finished)
            then (Failure "Game is not finished", s)
            else
              let st1 :=
                match find_player (objects s) (players (game room)) playerId with
                | Some r => mark_ready (objects s) r
                | None => objects s
                end in
              let allReady := forallb (λ r, isReady (st1 r)) (players (game room)) in
              let '(st2, g') :=
                if allReady then GameLogic.resetGame st1 (game room) gameId
                else (st1, game room) in
              let room' := with_game room g' in
              (Success room',
               {| rooms := <[roomId := room']> (rooms s);
                  playerRooms := playerRooms s;
                  matchmakingQueue := matchmakingQueue s;
                  objects := st2 |})
        end
  end.

(** [Some roomId] is [{ success: true, roomId }], [None] is
    [{ success: false }]. *)
Definition leaveRoom (s : State) (playerId : string) : option string * State :=
  match playerRooms s !! playerId with
  | None => (None, s)
  | Some roomId =>
      if bool_decide (roomId = "") then (None, s)
      else
        match rooms s !! roomId with
        | None => (None, s)
        | Some room =>
            let g := game room in
            let players' :=
              filter (λ r, player_id (objects s r) ≠ playerId) (players g) in
            let spectators' := filter (λ sid, sid ≠ playerId) (spectators room) in
            let room' :=
              {| room_id := room_id room;
                 game := {| game_id := game_id g; players := players';
                            board := board g; currentPlayer := currentPlayer g;
                            status := status g; result := result g |};
                 spectators := spectators' |} in
            let rooms1 := <[roomId := room']> (rooms s) in
            (Some roomId,
             {| rooms :=
                  if bool_decide (length players' = 0%nat)
                     && bool_decide (length spectators' = 0%nat)
                  then delete roomId rooms1 else rooms1;
                playerRooms := delete playerId (playerRooms s);
                matchmakingQueue := remove_first playerId (matchmakingQueue s);
                objects := objects s |})
        end
  end.

Definition getRoom (s : State) (roomId : string) : option GameRoom :=
  rooms s !! roomId.

Definition getRoomByPlayer (s : State) (playerId : string) : option GameRoom :=
  match playerRooms s !! playerId with
  | Some roomId => if bool_decide (roomId = "") then None else rooms s !! roomId
  | None => None
  end.

(** [telegramUser.username || telegramUser.first_name] *)
Definition createPlayer (telegramUser : TelegramUser) (socketId : string) : Player :=
  {| player_id := socketId;
     telegramId := user_id telegramUser;
     username := match user_username telegramUser with
                 | Some u => if bool_decide (u = "") then first_name telegramUser else u
                 | None => first_name telegramUser
                 end;
     symbol := X;
     isReady := false |}.

End GameManager.

(** ** The players table ([src/database/database.ts])

    The statements that read and write the [players] table, on the table
    as a finite map from [telegram_id], its primary key, to the other
    columns.  [err] says whether sqlite hands an error to the callback of
    a statement; a statement that fails leaves the table as it was.  The
    columns are SQL integers, taken here without their 64-bit bound; the
    two time stamps of a row are left out. *)

Module Database.

Record PlayerRow := {
  row_username : string;
  row_wins : Z;
  row_losses : Z;
  row_draws : Z;
  row_total_games : Z
}.

Abbreviation Players := (gmap Z PlayerRow).

(** [PlayerStats] of [src/types/index.ts] *)
Record PlayerStats := {
  stats_telegramId : Z;
  wins : Z;
  losses : Z;
  draws : Z;
  totalGames : Z
}.

(** A promise that resolved with a value, or rejected. *)
Inductive Reply (A : Type) := resolve (a : A) | reject.
Arguments resolve {A} a.
Arguments reject {A}.

Definition stats_of (telegramId : Z) (row : PlayerRow) : PlayerStats :=
  {| stats_telegramId := telegramId;
     wins := row_wins row;
     losses := row_losses row;
     draws := row_draws row;
     totalGames := row_total_games row |}.

(** [INSERT INTO players (telegram_id, username) VALUES (?, ?)]: the
    counters take their [DEFAULT 0]. *)
Definition new_row (username : string) : PlayerRow :=
  {| row_username := username; row_wins := 0; row_losses := 0;
     row_draws := 0; row_total_games := 0 |}.

(** [errGet] is for the [SELECT], [errRun] for the [INSERT]. *)
Definition getOrCreatePlayer (t : Players) (telegramId : Z) (username : string)
    (errGet errRun : bool) : Reply PlayerStats * Players :=
  if errGet then (reject, t)
  else
    match t !! telegramId with
    | Some row => (resolve (stats_of telegramId row), t)
    | None =>
        if errRun then (reject, t)
        else
          (resolve {| stats_telegramId := telegramId; wins := 0; losses := 0;
                      draws := 0; totalGames := 0 |},
           <[telegramId := new_row username]> t)
    end.

(** [SET <field> = <field> + 1, total_games = total_games + 1] *)
Definition bump (outcome : string) (row : PlayerRow) : PlayerRow :=
  {| row_username := row_username row;
     row_wins := if bool_decide (outcome = "win") then row_wins row + 1 else row_wins row;
     row_losses := if bool_decide (outcome = "loss") then row_losses row + 1 else row_losses row;
     row_draws := if bool_decide (outcome = "draw") then row_draws row + 1 else row_draws row;
     row_total_games := row_total_games row + 1 |}.

(** The [switch] builds the [SET] clause; for any other [outcome] the
    clause is empty, the statement is not SQL and sqlite reports an
    error.  An [UPDATE ... WHERE telegram_id = ?] that matches no row
    succeeds. *)
Definition updatePlayerStats (t : Players) (telegramId : Z) (outcome : string)
    (err : bool) : Reply unit * Players :=
  if bool_decide (outcome = "win") || bool_decide (outcome = "loss")
     || bool_decide (outcome = "draw")
  then if err then (reject, t)
       else (resolve tt, alter (bump outcome) telegramId t)
  else (reject, t).

Definition getPlayerStats (t : Players) (telegramId : Z) (err : bool)
    : Reply (option PlayerStats) * Players :=
  if err then (reject, t)
  else (resolve (stats_of telegramId <$> t !! telegramId), t).

End Database.

(** ** Requests and reachable states

    The gateway ([src/server.ts]) turns socket events into calls of the
    manager.  A request carries the arguments of the call together with
    what [uuidv4()], [Math.random()] and the sink would answer. *)

Inductive Request :=
| CreateRoom (player : ref) (roomId gameId : string)
| JoinRoom (roomId : string) (player : ref) (isPlayer1X : bool) (gameId : string)
| FindMatch (player : ref) (isPlayer1X : bool) (roomId gameId : string)
| MakeMove (db : DatabaseManager) (playerId : string) (row col : Z)
| HandleRematch (playerId gameId : string)
| LeaveRoom (playerId : string).

Definition handle (s : GameManager.State) (rq : Request) : GameManager.State :=
  match rq with
  | CreateRoom p roomId gameId => snd (GameManager.createRoom s p roomId gameId)
  | JoinRoom roomId p c gameId => snd (GameManager.joinRoom s roomId p c gameId)
  | FindMatch p c roomId gameId => snd (GameManager.findMatch s p c roomId gameId)
  | MakeMove db playerId row col => snd (fst (GameManager.makeMove db s playerId row col))
  | HandleRematch playerId gameId => snd (GameManager.handleRematch s playerId gameId)
  | LeaveRoom playerId => snd (GameManager.leaveRoom s playerId)
  end.

(** What is assumed of [uuidv4()]: a room identifier it returns is not the
    empty string and is not the identifier of a registered room. *)
Definition fresh_roomId (s : GameManager.State) (roomId : string) : Prop :=
  roomId ≠ "" ∧ GameManager.rooms s !! roomId = None.

Definition uuid_fresh (s : GameManager.State) (rq : Request) : Prop :=
  match rq with
  | CreateRoom _ roomId _ => fresh_roomId s roomId
  | FindMatch _ _ roomId _ => fresh_roomId s roomId
  | _ => True
  end.

Inductive reachable : GameManager.State → Prop :=
| reachable_empty (st : Store) : reachable (GameManager.empty st)
| reachable_handle (s : GameManager.State) (rq : Request) :
    reachable s → uuid_fresh s rq → reachable (handle s rq).

(** A session: the requests handled one after the other. *)
Definition run (s : GameManager.State) (rqs : list Request) : GameManager.State :=
  foldl handle s rqs.

Fixpoint all_fresh (s : GameManager.State) (rqs : list Request) : Prop :=
  match rqs with
  | [] => True
  | rq :: rest => uuid_fresh s rq ∧ all_fresh (handle s rq) rest
  end.

(** The connection identifiers in a room's player list. *)
Definition player_ids (st : Store) (room : GameRoom) : list string :=
  map (λ r, player_id (st r)) (players (game room)).

(** A 3x3 board. *)
Definition board3x3 (b : GameBoard) : Prop :=
  length b = 3%nat ∧ Forall (λ row, length row = 3%nat) b.

(** ** The board engine's outcome, in the words of the specification *)

Definition Position := (nat * nat)%type.
Definition Line := (Position * Position * Position)%type.

(** Rows, then columns, then the two diagonals. *)
Definition lines : list Line :=
  [ ((0, 0), (0, 1), (0, 2)); ((1, 0), (1, 1), (1, 2)); ((2, 0), (2, 1), (2, 2));
    ((0, 0), (1, 0), (2, 0)); ((0, 1), (1, 1), (2, 1)); ((0, 2), (1, 2), (2, 2));
    ((0, 0), (1, 1), (2, 2)); ((0, 2), (1, 1), (2, 0)) ]%nat.

(** Line [l] holds three marks [m]. *)
Definition complete (b : GameBoard) (l : Line) (m : Mark) : Prop :=
  let '(p1, p2, p3) := l in
  cellAt b p1.1 p1.2 = Some (Some m) ∧
  cellAt b p2.1 p2.2 = Some (Some m) ∧
  cellAt b p3.1 p3.2 = Some (Some m).

(** [l] is the first line, in scan order, that is complete, and it holds [m]. *)
Definition first_complete (b : GameBoard) (l : Line) (m : Mark) : Prop :=
  ∃ before after,
    lines = before ++ l :: after ∧ complete b l m ∧
    ∀ l' m', l' ∈ before → ¬ complete b l' m'.

Definition no_complete_line (b : GameBoard) : Prop :=
  ∀ l m, l ∈ lines → ¬ complete b l m.

Definition all_occupied (b : GameBoard) : Prop :=
  ∀ row col, (row < 3)%nat → (col < 3)%nat → cellAt b row col ≠ Some None.

Definition some_empty (b : GameBoard) : Prop :=
  ∃ row col, (row < 3)%nat ∧ (col < 3)%nat ∧ cellAt b row col = Some None.

Definition line_mark (b : GameBoard) (l : Line) : option Mark :=
  let '(p1, p2, p3) := l in
  GameLogic.line3 (cellAt b p1.1 p1.2) (cellAt b p2.1 p2.2) (cellAt b p3.1 p3.2).

(** ** Words of the specification for moves *)



(** A sink that never fails, and one that always does. *)
Definition sink_up : DatabaseManager := λ _ _, Resolved.
Definition sink_down : DatabaseManager := λ _ _, Rejected.

(** The cells of a 3x3 board, in the order of the loops of [getGameStats]. *)
Definition positions : list Position :=
  [ (0, 0); (0, 1); (0, 2); (1, 0); (1, 1); (1, 2); (2, 0); (2, 1); (2, 2) ]%nat.






(** ** The invariant of the reachable states *)

(** The store changes, the connection identifiers in it do not. *)
Definition same_ids (st st' : Store) : Prop :=
  ∀ r, player_id (st' r) = player_id (st r).

Record Inv (s : GameManager.State) : Prop := {
  (** a connection that [playerRooms] maps to a room is in the player
      list of that room, and the room is registered *)
  inv_mapped : ∀ c roomId,
    GameManager.playerRooms s !! c = Some roomId →
    roomId ≠ "" ∧
    ∃ room, GameManager.rooms s !! roomId = Some room ∧
            c ∈ player_ids (GameManager.objects s) room;
  (** at most two players in a room *)
  inv_two : ∀ roomId room,
    GameManager.rooms s !! roomId = Some room →
    (length (players (game room)) ≤ 2)%nat;
  (** every board is 3x3 *)
  inv_board : ∀ roomId room,
    GameManager.rooms s !! roomId = Some room →
    board3x3 (board (game room));
  (** no room is registered under the empty string *)
  inv_roomId : GameManager.rooms s !! "" = None
}.

(** What else every reachable state satisfies. *)
Record Coherent (s : GameManager.State) : Prop := {
  (** a room is registered under its own identifier *)
  coh_key : ∀ roomId room,
    GameManager.rooms s !! roomId = Some room → room_id room = roomId;
  (** the recorded result is the result of the board, and the status is
      [finished] exactly when there is one *)
  coh_result : ∀ roomId room,
    GameManager.rooms s !! roomId = Some room →
    result (game room) = GameLogic.checkGameResult (board (game room)) ∧
    (status (game room) = finished ↔ result (game room) ≠ None);
  (** a [waiting] room has one player, no spectator and an empty board *)
  coh_waiting : ∀ roomId room,
    GameManager.rooms s !! roomId = Some room →
    status (game room) = waiting →
    length (players (game room)) = 1%nat ∧ spectators room = [] ∧
    board (game room) = GameLogic.createEmptyBoard;
  (** no connection is queued twice *)
  coh_queue : NoDup (GameManager.matchmakingQueue s);
  (** a queued connection has a room *)
  coh_queued : ∀ c, c ∈ GameManager.matchmakingQueue s →
    is_Some (GameManager.playerRooms s !! c)
}.

(** The number of cells of the board that hold mark [m]. *)
Definition count_mark (b : GameBoard) (m : Mark) : nat :=
  length (filter (λ p : Position, cellAt b p.1 p.2 = Some (Some m)) positions).

(** A property of the board, the turn and the status holds of every
    registered game. *)
Definition every_game (Q : GameBoard → Mark → GameStatus → Prop)
    (s : GameManager.State) : Prop :=
  ∀ roomId room, GameManager.rooms s !! roomId = Some room →
    Q (board (game room)) (currentPlayer (game room)) (status (game room)).

(** The marks were put down in turns: the mark to move next has as many
    cells as the other or one less; once the game is finished the roles
    are exchanged, since the turn stays with the mark that moved last. *)
Definition in_turns (b : GameBoard) (turn : Mark) (st : GameStatus) : Prop :=
  if bool_decide (st = finished)
  then (count_mark b (other turn) ≤ count_mark b turn ≤ count_mark b (other turn) + 1)%nat
  else (count_mark b turn ≤ count_mark b (other turn) ≤ count_mark b turn + 1)%nat.

(** All complete lines hold the same mark. *)
Definition one_winner (b : GameBoard) (turn : Mark) (st : GameStatus) : Prop :=
  ∀ l l' m m', l ∈ lines → l' ∈ lines →
    complete b l m → complete b l' m' → m = m'.

(** ** Concrete boards, players and sessions *)

Definition board_win_row0 : GameBoard :=
  [ [Some X; Some X; Some X];
    [Some O; Some O; None];
    [None; None; None] ].

Definition alice : TelegramUser :=
  {| user_id := 123; first_name := "Alice"; user_username := Some "alice" |}.
Definition bob : TelegramUser :=
  {| user_id := 456; first_name := "Bob"; user_username := None |}.
Definition carol : TelegramUser :=
  {| user_id := 789; first_name := "Carol"; user_username := Some "carol" |}.

(** Three connections, one [Player] object each, as the gateway makes them. *)
Definition three_players : Store :=
  λ r, match r with
       | 0%nat => GameManager.createPlayer alice "socket1"
       | 1%nat => GameManager.createPlayer bob "socket2"
       | _ => GameManager.createPlayer carol "socket3"
       end.

(** [socket1] opens a room and [socket2] joins it; [socket1] gets ['X']. *)
Definition session_started : GameManager.State :=
  run (GameManager.empty three_players)
      [ CreateRoom 0%nat "room-1" "game-1";
        JoinRoom "room-1" 1%nat true "game-2" ].

(** [socket1] opens a room and waits. *)
Definition session_waiting : GameManager.State :=
  run (GameManager.empty three_players) [ CreateRoom 0%nat "room-1" "game-1" ].


(** [socket3] joins the full room of [session_started]. *)
Definition session_spectator : GameManager.State :=
  run session_started [ JoinRoom "room-1" 2%nat true "game-3" ].


(** Four moves: [socket1] (holding ['X']) has two cells of the top row. *)
Definition session_four_moves : GameManager.State :=
  run session_started
      [ MakeMove sink_up "socket1" 0 0;
        MakeMove sink_up "socket2" 1 0;
        MakeMove sink_up "socket1" 0 1;
        MakeMove sink_up "socket2" 1 1 ].

(** [socket1] completes the top row and wins. *)
Definition session_won : GameManager.State :=
  run session_four_moves [ MakeMove sink_up "socket1" 0 2 ].

(** The game of [session_started], and the same game after ['X'] took
    the centre. *)
Definition game_started : GameState :=
  {| game_id := "game-2"; players := [0; 1]%nat;
     board := GameLogic.createEmptyBoard;
     currentPlayer := X; status := playing; result := None |}.

Definition game_after_centre : GameState :=
  {| game_id := "game-2"; players := [0; 1]%nat;
     board := [ [None; None; None]; [None; Some X; None]; [None; None; None] ];
     currentPlayer := O; status := playing; result := None |}.

(** The game of [session_four_moves]. *)
Definition game_four_moves : GameState :=
  {| game_id := "game-2"; players := [0; 1]%nat;
     board := [ [Some X; Some X; None]; [Some O; Some O; None]; [None; None; None] ];
     currentPlayer := X; status := playing; result := None |}.

(** The game of [session_won]. *)
Definition game_won : GameState :=
  {| game_id := "game-2"; players := [0; 1]%nat;
     board := board_win_row0;
     currentPlayer := X; status := finished; result := Some (Win X) |}.

(** ... and asks for a rematch. *)
Definition session_rematch_asked : GameManager.State :=
  run session_won [ HandleRematch "socket1" "game-3" ].

(** [socket1] waits in the matchmaking queue, [socket2] joins its room by
    identifier and leaves again. *)
Definition session_abandoned : GameManager.State :=
  run (GameManager.empty three_players)
      [ FindMatch 0%nat true "room-1" "game-1";
        JoinRoom "room-1" 1%nat true "game-2";
        LeaveRoom "socket2" ].

(** The fallback clause of matchmaking, as the specification has it: when
    the waiter popped from the queue does not own a single-player
    [waiting] room, the caller is not matched. *)
Definition fallback_when_not_waiting (s : GameManager.State) (p : ref)
    (c : bool) (roomId gameId : string) : Prop :=
  ∀ w rest,
    remove_first (player_id (GameManager.objects s p)) (GameManager.matchmakingQueue s)
      = w :: rest →
    ¬ (∃ wr room, GameManager.playerRooms s !! w = Some wr ∧
                  GameManager.rooms s !! wr = Some room ∧
                  length (players (game room)) = 1%nat ∧
                  status (game room) = waiting) →
    (GameManager.findMatch s p c roomId gameId).1 = None.

(** The room that [createRoom] registers. *)
Definition waiting_room (roomId gameId : string) (p : ref) : GameRoom :=
  {| room_id := roomId;
     game := {| game_id := gameId; players := [p];
                board := GameLogic.createEmptyBoard;
                currentPlayer := X; status := waiting; result := None |};
     spectators := [] |}.

(** The caller of [findMatch] ends up alone in a new room, at the back of
    the queue that remained. *)
Definition enqueued (r : option GameRoom * GameManager.State) (p : ref)
    (roomId gameId : string) (rest : list string) : Prop :=
  let me := player_id (GameManager.objects r.2 p) in
  r.1 = None ∧
  GameManager.matchmakingQueue r.2 = rest ++ [me] ∧
  GameManager.rooms r.2 !! roomId = Some (waiting_room roomId gameId p) ∧
  GameManager.playerRooms r.2 !! me = Some roomId.

(** The waiter [w] is mapped to a registered room with exactly one player. *)
Definition owns_single_player_room (s : GameManager.State) (w : string) : Prop :=
  ∃ wr room, GameManager.playerRooms s !! w = Some wr ∧ wr ≠ "" ∧
             GameManager.rooms s !! wr = Some room ∧
             length (players (game room)) = 1%nat.

(** [socket1] asks for a match and waits in the queue. *)
Definition session_queued : GameManager.State :=
  run (GameManager.empty three_players) [ FindMatch 0%nat true "room-1" "game-1" ].

(** The room in which [socket2] is matched with the waiting [socket1]. *)
Definition room_matched : GameRoom :=
  {| room_id := "room-1";
     game := {| game_id := "game-2"; players := [0; 1]%nat;
                board := GameLogic.createEmptyBoard;
                currentPlayer := X; status := playing; result := None |};
     spectators := [] |}.

(** A players table with [alice] and [bob] registered: [alice] has played
    three games. *)
Definition table_two : Database.Players :=
  <[123 := {| Database.row_username := "alice"; Database.row_wins := 2;
              Database.row_losses := 1; Database.row_draws := 0;
              Database.row_total_games := 3 |}]>
  (<[456 := Database.new_row "Bob"]> ∅).

(** * Properties *)

(** ** Board engine *)

Section Scan.
Context {I A : Type} (body : I → option A).

Lemma scan_None (indices : list I) :
  scan body indices = None ↔ Forall (λ i, body i = None) indices.
Proof.
  induction indices as [|i rest IH]; simpl.
  - split; [constructor | done].
  - destruct (body i) eqn:E.
    + split; [done | intros H; inversion H; congruence].
    + rewrite IH. split; [by constructor | by inversion 1].
Qed.

Lemma scan_Some (indices : list I) (a : A) :
  scan body indices = Some a ↔
  ∃ before i after, indices = before ++ i :: after ∧ body i = Some a ∧
                    Forall (λ j, body j = None) before.
Proof.
  induction indices as [|i rest IH]; simpl.
  - split; [done | intros (before & j & after & E & _)].
    by destruct before.
  - destruct (body i) eqn:E.
    + split.
      * intros [= ->]. by exists [], i, rest.
      * intros (before & j & after & El & Hj & Hb).
        destruct before as [|k before]; simplify_eq/=; [congruence|].
        inversion Hb; congruence.
    + rewrite IH. split.
      * intros (before & j & after & -> & Hj & Hb).
        exists (i :: before), j, after. split_and!; [done | done | by constructor].
      * intros (before & j & after & El & Hj & Hb).
        destruct before as [|k before]; simplify_eq/=.
        exists before, j, after. split_and!; [done | done | by inversion Hb].
Qed.
End Scan.

Lemma line3_Some (a b c : option CellValue) (m : Mark) :
  GameLogic.line3 a b c = Some m ↔
  a = Some (Some m) ∧ b = Some (Some m) ∧ c = Some (Some m).
Proof.
  unfold GameLogic.line3. destruct a as [[m'|]|].
  - repeat case_bool_decide; simpl; split;
      solve [ intros [= <-]; by subst | intros (? & ? & ?); congruence ].
  - split; [done | intros ([=] & _)].
  - split; [done | intros ([=] & _)].
Qed.

Lemma line_mark_Some (b : GameBoard) (l : Line) (m : Mark) :
  line_mark b l = Some m ↔ complete b l m.
Proof. destruct l as [[p1 p2] p3]. apply line3_Some. Qed.

Lemma line_mark_None (b : GameBoard) (l : Line) :
  line_mark b l = None ↔ ∀ m, ¬ complete b l m.
Proof.
  split.
  - intros E m Hc. apply line_mark_Some in Hc. congruence.
  - intros H. destruct (line_mark b l) as [m|] eqn:E; [|done].
    apply line_mark_Some in E. by destruct (H m).
Qed.

(** The cascade of [checkGameResult] is one scan over [lines]. *)
Lemma checkGameResult_scan (b : GameBoard) :
  GameLogic.checkGameResult b =
  match scan (line_mark b) lines with
  | Some m => Some (Win m)
  | None => if GameLogic.isBoardFull b then Some Draw else None
  end.
Proof.
  unfold GameLogic.checkGameResult, lines, line_mark; simpl.
  repeat (match goal with |- context [GameLogic.line3 ?x ?y ?z] =>
            destruct (GameLogic.line3 x y z) eqn:? end; try reflexivity).
Qed.

Lemma isBoardFull_true (b : GameBoard) :
  GameLogic.isBoardFull b = true ↔ ∀ row col, cellAt b row col ≠ Some None.
Proof.
  unfold GameLogic.isBoardFull, cellAt.
  rewrite <- Is_true_true, forallb_True, Forall_lookup. split.
  - intros H row col E. destruct (b !! row) as [r|] eqn:Er; [|done].
    specialize (H _ _ Er). rewrite forallb_True, Forall_lookup in H.
    simpl in E. specialize (H _ _ E). by case_bool_decide.
  - intros H row r Er. rewrite forallb_True, Forall_lookup. intros col v Ev.
    case_bool_decide as Hv; [done|]. subst v.
    specialize (H row col). by rewrite Er in H.
Qed.

Lemma cellAt_outside (b : GameBoard) (row col : nat) :
  board3x3 b → ¬ (row < 3 ∧ col < 3)%nat → cellAt b row col = None.
Proof.
  intros [Hl Hr] Hout. unfold cellAt.
  destruct (b !! row) as [r|] eqn:Er; [|done]. simpl.
  apply lookup_ge_None.
  pose proof (lookup_lt_Some _ _ _ Er).
  rewrite Forall_lookup in Hr. specialize (Hr _ _ Er). simpl in Hr. lia.
Qed.


Lemma isBoardFull_all_occupied (b : GameBoard) :
  board3x3 b → (GameLogic.isBoardFull b = true ↔ all_occupied b).
Proof.
  intros Hb. rewrite isBoardFull_true. split.
  - intros H row col _ _. apply H.
  - intros H row col. destruct (decide (row < 3 ∧ col < 3)%nat) as [[??]|Hout].
    + by apply H.
    + by rewrite cellAt_outside.
Qed.

Lemma not_all_occupied (b : GameBoard) :
  board3x3 b → (GameLogic.isBoardFull b = false ↔ some_empty b).
Proof.
  intros Hb. split.
  - intros Hf.
    destruct (decide (Exists (λ p : nat * nat, cellAt b p.1 p.2 = Some None)
                (list_prod [0; 1; 2] [0; 1; 2])%nat)) as [He|Hne].
    + apply Exists_exists in He as ([row col] & Hin & E).
      exists row, col. simpl in *.
      repeat (apply elem_of_cons in Hin as [[= -> ->]|Hin]; [split_and!; (lia || done)|]).
      by apply elem_of_nil in Hin.
    + exfalso. apply not_true_iff_false in Hf. apply Hf.
      apply isBoardFull_all_occupied; [done|]. intros row col Hrow Hcol E.
      apply Hne, Exists_exists. exists (row, col). split; [|done].
      destruct row as [|[|[|?]]]; [| | |lia];
      (destruct col as [|[|[|?]]]; [| | |lia]); set_solver.
  - intros (row & col & Hrow & Hcol & E).
    apply not_true_iff_false. rewrite isBoardFull_all_occupied by done.
    intros H. by apply (H row col).
Qed.

(** C1.  On every 3x3 board, [checkGameResult] answers mark [m] exactly
    when [m] fills the first complete line met in scan order (rows, then
    columns, then diagonals); it answers some mark exactly when some line
    is complete; it answers [Draw] exactly when no line is complete and
    all nine cells are occupied; it answers [null] otherwise, that is
    exactly when no line is complete and some cell is empty. *)
Theorem checkGameResult_spec (b : GameBoard) :
  board3x3 b →
  (∀ m, GameLogic.checkGameResult b = Some (Win m) ↔ ∃ l, first_complete b l m) ∧
  ((∃ m, GameLogic.checkGameResult b = Some (Win m)) ↔
   ∃ l m, l ∈ lines ∧ complete b l m) ∧
  (GameLogic.checkGameResult b = Some Draw ↔ no_complete_line b ∧ all_occupied b) ∧
  (GameLogic.checkGameResult b = None ↔ no_complete_line b ∧ some_empty b).
Proof.
  intros Hb. rewrite checkGameResult_scan.
  assert (Hnone : scan (line_mark b) lines = None ↔ no_complete_line b).
  { rewrite scan_None, Forall_forall. unfold no_complete_line.
    setoid_rewrite line_mark_None. naive_solver. }
  assert (Hsome : ∀ m, scan (line_mark b) lines = Some m ↔ ∃ l, first_complete b l m).
  { intros m. rewrite scan_Some. unfold first_complete. split.
    - intros (before & l & after & E & Hl & Hbefore). exists l, before, after.
      split_and!; [done | by apply line_mark_Some |].
      intros l' m' Hin. rewrite Forall_forall in Hbefore.
      by apply line_mark_None, Hbefore.
    - intros (l & before & after & E & Hl & Hbefore). exists before, l, after.
      split_and!; [done | by apply line_mark_Some |].
      apply Forall_forall. intros l' Hin. apply line_mark_None.
      intros m'. by apply Hbefore. }
  split_and!.
  - intros m. rewrite <- Hsome.
    destruct (scan _ _); [naive_solver|]. destruct (GameLogic.isBoardFull b); naive_solver.
  - split.
    + intros [m Hm]. destruct (scan (line_mark b) lines) as [m'|] eqn:E;
        [|destruct (GameLogic.isBoardFull b); done].
      destruct (proj1 (Hsome m') eq_refl) as (l & before & after & El & Hl & _).
      exists l, m'. split; [|done]. rewrite El. set_solver.
    + intros (l & m & Hin & Hl).
      destruct (scan (line_mark b) lines) as [m'|] eqn:E; [by exists m'|].
      by destruct (proj1 Hnone eq_refl l m).
  - rewrite <- Hnone, <- isBoardFull_all_occupied by done.
    destruct (scan _ _); [naive_solver|]. destruct (GameLogic.isBoardFull b); naive_solver.
  - rewrite <- Hnone, <- not_all_occupied by done.
    destruct (scan _ _); [naive_solver|]. destruct (GameLogic.isBoardFull b); naive_solver.
Qed.

Lemma checkGameResult_spec_witness :
  board3x3 board_win_row0 ∧
  (∀ m, GameLogic.checkGameResult board_win_row0 = Some (Win m) ↔
        ∃ l, first_complete board_win_row0 l m).
Proof.
  assert (H : board3x3 board_win_row0).
  { split; [reflexivity | repeat constructor]. }
  split; [exact H | exact (proj1 (checkGameResult_spec board_win_row0 H))].
Defined.

(** ** Game rules *)

Lemma setCell_board3x3 (b : GameBoard) (row col : nat) (v : CellValue) :
  board3x3 b → board3x3 (GameLogic.setCell b row col v).
Proof.
  intros [Hl Hr]. unfold GameLogic.setCell. split.
  - by rewrite length_alter.
  - apply Forall_lookup. intros i r Hi.
    rewrite Forall_lookup in Hr.
    destruct (decide (row = i)) as [->|Hne].
    + rewrite list_lookup_alter_eq in Hi.
      destruct (b !! i) as [r0|] eqn:E; simplify_eq/=.
      rewrite length_insert. by apply (Hr i).
    + rewrite list_lookup_alter_ne in Hi by done. by apply (Hr i).
Qed.

Lemma createEmptyBoard_board3x3 : board3x3 GameLogic.createEmptyBoard.
Proof. split; [reflexivity | repeat constructor]. Qed.

(** What an accepted move leaves behind. *)
Lemma makeMove_accepted (st : Store) (g g' : GameState) (playerId : string) (row col : Z) :
  GameLogic.makeMove st g playerId row col = (None, g') →
  ∃ r,
    status g = playing ∧
    find_player st (players g) playerId = Some r ∧
    symbol (st r) = currentPlayer g ∧
    GameLogic.isValidMove (board g) row col = true ∧
    players g' = players g ∧ game_id g' = game_id g ∧
    board g' = GameLogic.setCell (board g) (Z.to_nat row) (Z.to_nat col)
                                 (Some (symbol (st r))) ∧
    match GameLogic.checkGameResult (board g') with
    | Some v => currentPlayer g' = currentPlayer g ∧ status g' = finished ∧
                result g' = Some v
    | None => currentPlayer g' = other (currentPlayer g) ∧ status g' = playing ∧
              result g' = result g
    end.
Proof.
  unfold GameLogic.makeMove. intros H.
  case_bool_decide as Hst; [done|].
  destruct (find_player st (players g) playerId) as [r|]; [|done].
  case_bool_decide as Hsym; [done|].
  destruct (GameLogic.isValidMove (board g) row col) eqn:Hv; [|done].
  simpl in H. exists r.
  destruct (GameLogic.checkGameResult _) as [v|] eqn:Hres;
    simplify_eq/=; rewrite Hres; by split_and!.
Qed.

(** A refused move leaves the game as it was. *)
Lemma makeMove_refused (st : Store) (g g' : GameState) (playerId error : string)
    (row col : Z) :
  GameLogic.makeMove st g playerId row col = (Some error, g') → g' = g.
Proof.
  unfold GameLogic.makeMove. intros H.
  repeat (case_bool_decide || case_match || simplify_eq/=); done.
Qed.

(** C4.  After an accepted move that leaves [checkGameResult] at [null],
    [currentPlayer] is the mark opposite to the one that moved; after an
    accepted move that yields a result, [currentPlayer] is what it was
    when the move was made. *)
Theorem makeMove_turn_alternation (st : Store) (g g' : GameState)
    (playerId : string) (row col : Z) :
  GameLogic.makeMove st g playerId row col = (None, g') →
  ∃ r, find_player st (players g) playerId = Some r ∧
    let moved := symbol (st r) in
    board g' = GameLogic.setCell (board g) (Z.to_nat row) (Z.to_nat col) (Some moved) ∧
    (GameLogic.checkGameResult (board g') = None →
       currentPlayer g' = other moved ∧ currentPlayer g' ≠ moved) ∧
    (GameLogic.checkGameResult (board g') ≠ None →
       currentPlayer g' = currentPlayer g).
Proof.
  intros H. apply makeMove_accepted in H
    as (r & _ & Hfind & Hsym & _ & _ & _ & Hboard & Hres).
  exists r. split; [done|]. simpl. split; [done|].
  destruct (GameLogic.checkGameResult (board g')) as [v|].
  - split; [done|]. by destruct Hres.
  - split; [|done]. intros _. destruct Hres as (-> & _).
    rewrite Hsym. by destruct (currentPlayer g).
Qed.

Lemma makeMove_turn_alternation_witness :
  ∃ r, find_player (GameManager.objects session_started) (players game_started)
                   "socket1" = Some r ∧
    let moved := symbol (GameManager.objects session_started r) in
    board game_after_centre
      = GameLogic.setCell (board game_started) (Z.to_nat 1) (Z.to_nat 1) (Some moved) ∧
    (GameLogic.checkGameResult (board game_after_centre) = None →
       currentPlayer game_after_centre = other moved ∧
       currentPlayer game_after_centre ≠ moved) ∧
    (GameLogic.checkGameResult (board game_after_centre) ≠ None →
       currentPlayer game_after_centre = currentPlayer game_started).
Proof.
  exact (makeMove_turn_alternation (GameManager.objects session_started)
           game_started game_after_centre "socket1" 1 1 eq_refl).
Defined.

(** The winning scenario of the specification, on the game alone: X takes
    (0,0), O (1,0), X (0,1), O (1,1), X (0,2); X has won and the game is
    finished. *)
Example scenario_win :
  let st := GameManager.objects session_started in
  let move (g : GameState) (m : string * Z * Z) :=
    (GameLogic.makeMove st g m.1.1 m.1.2 m.2).2 in
  foldl move game_started
        [ ("socket1", 0, 0); ("socket2", 1, 0); ("socket1", 0, 1);
          ("socket2", 1, 1); ("socket1", 0, 2) ]
  = game_won.
Proof. reflexivity. Qed.

(** A move to an occupied cell is refused and the game is untouched. *)
Example scenario_illegal_move :
  GameLogic.makeMove (GameManager.objects session_started) game_after_centre
                     "socket2" 1 1
  = (Some "Invalid move", game_after_centre).
Proof. reflexivity. Qed.

(** ** The store keeps connection identifiers *)

Lemma same_ids_refl (st : Store) : same_ids st st.
Proof. by intros r. Qed.

Lemma same_ids_trans (st1 st2 st3 : Store) :
  same_ids st1 st2 → same_ids st2 st3 → same_ids st1 st3.
Proof. intros H12 H23 r. by rewrite H23, H12. Qed.

Lemma same_ids_insert (st : Store) (r : ref) (p : Player) :
  player_id p = player_id (st r) → same_ids st (<[r := p]> st).
Proof.
  intros Hp r'. destruct (decide (r = r')) as [->|Hne].
  - by rewrite fn_lookup_insert.
  - by rewrite fn_lookup_insert_ne.
Qed.

Lemma same_ids_player_ids (st st' : Store) (room : GameRoom) :
  same_ids st st' → player_ids st' room = player_ids st room.
Proof. intros H. unfold player_ids. apply map_ext. intros r. apply H. Qed.

Lemma same_ids_find_player (st st' : Store) (ps : list ref) (playerId : string) :
  same_ids st st' → find_player st' ps playerId = find_player st ps playerId.
Proof.
  intros H. unfold find_player. induction ps as [|r ps IH]; [done|].
  simpl. by rewrite H, IH.
Qed.

Lemma createNewGame_same_ids (st : Store) (p1 p2 : ref) (c : bool) (u : string) :
  same_ids st (GameLogic.createNewGame st p1 p2 c u).1.
Proof.
  simpl. eapply same_ids_trans; apply same_ids_insert; simpl; [done|].
  destruct (decide (p1 = p2)) as [->|Hne].
  - by rewrite fn_lookup_insert.
  - by rewrite fn_lookup_insert_ne.
Qed.

Lemma swap_and_clear_same_ids (st : Store) (r : ref) :
  same_ids st (GameLogic.swap_and_clear st r).
Proof. by apply same_ids_insert. Qed.

Lemma foldl_swap_same_ids (ps : list ref) (st : Store) :
  same_ids st (foldl GameLogic.swap_and_clear st ps).
Proof.
  revert st. induction ps as [|r ps IH]; intros st; simpl.
  - apply same_ids_refl.
  - eapply same_ids_trans; [apply swap_and_clear_same_ids | apply IH].
Qed.

Lemma mark_ready_same_ids (st : Store) (r : ref) :
  same_ids st (GameManager.mark_ready st r).
Proof. by apply same_ids_insert. Qed.

(** ** The invariant holds in every reachable state *)

Lemma Inv_empty (st : Store) : Inv (GameManager.empty st).
Proof. split; simpl; try done; intros ? ?; by rewrite lookup_empty. Qed.

Lemma Inv_set_queue (s : GameManager.State) (q : list string) :
  Inv s → Inv (GameManager.set_queue s q).
Proof. intros [H1 H2 H3 H4]. by split. Qed.

Lemma Inv_createRoom (s : GameManager.State) (p : ref) (roomId gameId : string) :
  Inv s → fresh_roomId s roomId →
  Inv (GameManager.createRoom s p roomId gameId).2.
Proof.
  intros [H1 H2 H3 H4] [Hne Hfresh]. split; simpl.
  - intros c r Hc. apply lookup_insert_Some in Hc as [[<- <-]|[Hc1 Hc2]].
    + split; [done|]. eexists. rewrite lookup_insert_eq. split; [done|].
      unfold player_ids. simpl. set_solver.
    + destruct (H1 _ _ Hc2) as (Hr & room & Hroom & Hin). split; [done|].
      exists room. rewrite lookup_insert_ne; [done|]. congruence.
  - intros r room Hr. apply lookup_insert_Some in Hr as [[<- <-]|[_ Hr]]; simpl.
    + lia.
    + by eapply H2.
  - intros r room Hr. apply lookup_insert_Some in Hr as [[<- <-]|[_ Hr]]; simpl.
    + apply createEmptyBoard_board3x3.
    + by eapply H3.
  - by rewrite lookup_insert_ne.
Qed.

(** The game that [joinRoom] leaves when the joiner becomes a player. *)
Lemma joinRoom_started_game (st : Store) (g : GameState) (p : ref) (c : bool) (u : string) :
  let g1 := {| game_id := game_id g; players := players g ++ [p];
               board := board g; currentPlayer := currentPlayer g;
               status := status g; result := result g |} in
  let r := match players g1 with
           | [p1; p2] => GameLogic.createNewGame st p1 p2 c u
           | _ => (st, g1)
           end in
  same_ids st r.1 ∧ players r.2 = players g ++ [p] ∧
  (board r.2 = board g ∨ board r.2 = GameLogic.createEmptyBoard).
Proof.
  simpl. destruct (players g ++ [p]) as [|p1 [|p2 [|p3 ps]]] eqn:E; simpl;
    try (split_and!; [apply same_ids_refl | done | by left]).
  split_and!; [apply (createNewGame_same_ids st p1 p2 c u) | done | by right].
Qed.

Lemma Inv_joinRoom (s : GameManager.State) (roomId : string) (p : ref)
    (c : bool) (gameId : string) :
  Inv s → Inv (GameManager.joinRoom s roomId p c gameId).2.
Proof.
  intros [H1 H2 H3 H4]. unfold GameManager.joinRoom.
  assert (Hem : roomId = "" → GameManager.rooms s !! roomId = None) by (by intros ->).
  destruct (GameManager.rooms s !! roomId) as [room|] eqn:Hroom; [|by split].
  case_bool_decide as Hfull.
  - split; simpl.
    + intros c' r Hc. destruct (H1 _ _ Hc) as (Hr & room' & Hroom' & Hin).
      split; [done|]. destruct (decide (roomId = r)) as [->|Hne].
      * rewrite lookup_insert_eq. eexists. split; [done|]. by simplify_eq.
      * rewrite lookup_insert_ne by done. by exists room'.
    + intros r room' Hr. apply lookup_insert_Some in Hr as [[<- <-]|[_ Hr]]; simpl;
        by eapply H2.
    + intros r room' Hr. apply lookup_insert_Some in Hr as [[<- <-]|[_ Hr]]; simpl;
        by eapply H3.
    + rewrite lookup_insert_ne; [done|]. intros Hq. specialize (Hem Hq). congruence.
  - pose proof (joinRoom_started_game (GameManager.objects s) (game room) p c gameId)
      as Hg. simpl in Hg.
    destruct (match players (game room) ++ [p] with
              | [p1; p2] => _ | _ => _ end) as [st' g2] eqn:E.
    simpl in Hg. destruct Hg as (Hids & Hplayers & Hboard).
    split; simpl.
    + intros c' r Hc. apply lookup_insert_Some in Hc as [[<- <-]|[Hc1 Hc2]].
      * split; [intros Hq; specialize (Hem Hq); congruence|].
        eexists. rewrite lookup_insert_eq. split; [done|].
        unfold player_ids. simpl. rewrite Hplayers, map_app. simpl.
        rewrite Hids. set_solver.
      * destruct (H1 _ _ Hc2) as (Hr & room' & Hroom' & Hin). split; [done|].
        destruct (decide (roomId = r)) as [->|Hne].
        -- rewrite lookup_insert_eq. eexists. split; [done|]. simplify_eq.
           unfold player_ids in *. simpl. rewrite Hplayers, map_app.
           rewrite (map_ext _ (λ r, player_id (GameManager.objects s r)))
             by (intros; apply Hids).
           set_solver.
        -- rewrite lookup_insert_ne by done. exists room'. split; [done|].
           by rewrite (same_ids_player_ids _ _ _ Hids).
    + intros r room' Hr. apply lookup_insert_Some in Hr as [[<- <-]|[_ Hr]]; simpl.
      * rewrite Hplayers, length_app. simpl. specialize (H2 _ _ Hroom). lia.
      * by eapply H2.
    + intros r room' Hr. apply lookup_insert_Some in Hr as [[<- <-]|[_ Hr]]; simpl.
      * destruct Hboard as [-> | ->]; [by eapply H3 | apply createEmptyBoard_board3x3].
      * by eapply H3.
    + rewrite lookup_insert_ne; [done|]. intros Hq. specialize (Hem Hq). congruence.
Qed.

(** Replacing a registered room by one with the same player list, while
    the store keeps its identifiers, preserves the invariant. *)
Lemma Inv_update_room (s : GameManager.State) (roomId : string)
    (room room' : GameRoom) (q : list string) (st' : Store) :
  Inv s →
  GameManager.rooms s !! roomId = Some room →
  same_ids (GameManager.objects s) st' →
  players (game room') = players (game room) →
  board3x3 (board (game room')) →
  Inv {| GameManager.rooms := <[roomId := room']> (GameManager.rooms s);
         GameManager.playerRooms := GameManager.playerRooms s;
         GameManager.matchmakingQueue := q;
         GameManager.objects := st' |}.
Proof.
  intros [H1 H2 H3 H4] Hroom Hids Hplayers Hboard. split; simpl.
  - intros c r Hc. destruct (H1 _ _ Hc) as (Hr & room0 & Hroom0 & Hin).
    split; [done|]. destruct (decide (roomId = r)) as [->|Hne].
    + rewrite lookup_insert_eq. eexists. split; [done|]. simplify_eq.
      unfold player_ids in *. rewrite Hplayers.
      by rewrite (map_ext _ (λ r, player_id (GameManager.objects s r)))
        by (intros; apply Hids).
    + rewrite lookup_insert_ne by done. exists room0. split; [done|].
      by rewrite (same_ids_player_ids _ _ _ Hids).
  - intros r room0 Hr. apply lookup_insert_Some in Hr as [[<- <-]|[_ Hr]].
    + rewrite Hplayers. by eapply H2.
    + by eapply H2.
  - intros r room0 Hr. apply lookup_insert_Some in Hr as [[<- <-]|[_ Hr]].
    + done.
    + by eapply H3.
  - rewrite lookup_insert_ne; [done|]. intros ->. congruence.
Qed.

Lemma Inv_findMatch (s : GameManager.State) (p : ref) (c : bool)
    (roomId gameId : string) :
  Inv s → fresh_roomId s roomId →
  Inv (GameManager.findMatch s p c roomId gameId).2.
Proof.
  intros Hinv Hfresh. unfold GameManager.findMatch.
  set (s0 := GameManager.set_queue s _).
  assert (Hnew : ∀ s' : GameManager.State,
            Inv s' → GameManager.rooms s' = GameManager.rooms s →
            Inv (GameManager.enqueueInNewRoom s' p roomId gameId).2).
  { intros s' Hs' Hrooms. unfold GameManager.enqueueInNewRoom.
    pose proof (Inv_createRoom s' p roomId gameId Hs') as Hc.
    destruct (GameManager.createRoom s' p roomId gameId) as [rid s''] eqn:E.
    simpl. apply Inv_set_queue. apply Hc.
    destruct Hfresh. split; [done|]. by rewrite Hrooms. }
  destruct (GameManager.matchmakingQueue s0) as [|w rest] eqn:Hq.
  - apply Hnew; [by apply Inv_set_queue | done].
  - set (s1 := GameManager.set_queue s0 rest).
    assert (Hs1 : Inv s1) by (by do 2 apply Inv_set_queue).
    destruct (GameManager.playerRooms s1 !! w) as [wr|]; [|by apply Hnew].
    case_bool_decide; [by apply Hnew|].
    destruct (GameManager.rooms s1 !! wr) as [room|] eqn:Hroom; [|by apply Hnew].
    case_bool_decide; [|by apply Hnew].
    pose proof (Inv_joinRoom s1 wr p c gameId Hs1) as Hj.
    unfold GameManager.joinRoom in *. rewrite Hroom in *.
    case_bool_decide; [lia|]. simpl in *.
    by destruct (match players (game room) ++ [p] with
                 | [p1; p2] => _ | _ => _ end).
Qed.

Lemma GameLogic_makeMove_shape (st : Store) (g : GameState) (playerId : string)
    (row col : Z) :
  let g' := (GameLogic.makeMove st g playerId row col).2 in
  players g' = players g ∧ (board3x3 (board g) → board3x3 (board g')).
Proof.
  simpl. destruct (GameLogic.makeMove st g playerId row col) as [[e|] g'] eqn:E.
  - apply makeMove_refused in E as ->. done.
  - apply makeMove_accepted in E as (r & _ & _ & _ & _ & Hp & _ & Hb & _).
    simpl. split; [done|]. rewrite Hb. apply setCell_board3x3.
Qed.

(** The state that the manager's [makeMove] leaves does not depend on the
    sink: it is the room with the game as [GameLogic.makeMove] left it. *)
Lemma makeMove_state (db : DatabaseManager) (s : GameManager.State)
    (playerId : string) (row col : Z) :
  (GameManager.makeMove db s playerId row col).1.2 =
  match GameManager.playerRooms s !! playerId with
  | None => s
  | Some roomId =>
      if bool_decide (roomId = "") then s
      else match GameManager.rooms s !! roomId with
           | None => s
           | Some room =>
               GameManager.set_room s roomId
                 (GameManager.with_game room
                    (GameLogic.makeMove (GameManager.objects s) (game room)
                                        playerId row col).2)
           end
  end.
Proof.
  unfold GameManager.makeMove.
  destruct (GameManager.playerRooms s !! playerId) as [roomId|]; [|done].
  case_bool_decide; [done|].
  destruct (GameManager.rooms s !! roomId) as [room|]; [|done].
  destruct (GameLogic.makeMove _ _ _ _ _) as [[e|] g']; [done|]. simpl.
  by destruct (GameManager.persist _ _ db []) as [tr [[]|]].
Qed.

Lemma Inv_makeMove (db : DatabaseManager) (s : GameManager.State)
    (playerId : string) (row col : Z) :
  Inv s → Inv (GameManager.makeMove db s playerId row col).1.2.
Proof.
  intros Hinv. rewrite makeMove_state.
  destruct (GameManager.playerRooms s !! playerId) as [roomId|]; [|done].
  case_bool_decide; [done|].
  destruct (GameManager.rooms s !! roomId) as [room|] eqn:Hroom; [|done].
  pose proof (GameLogic_makeMove_shape (GameManager.objects s) (game room)
                playerId row col) as [Hp Hb].
  eapply Inv_update_room; eauto using same_ids_refl.
  apply Hb. eapply inv_board; eauto.
Qed.

Lemma Inv_handleRematch (s : GameManager.State) (playerId gameId : string) :
  Inv s → Inv (GameManager.handleRematch s playerId gameId).2.
Proof.
  intros Hinv. unfold GameManager.handleRematch.
  destruct (GameManager.playerRooms s !! playerId) as [roomId|]; [|done].
  case_bool_decide; [done|].
  destruct (GameManager.rooms s !! roomId) as [room|] eqn:Hroom; [|done].
  case_bool_decide; [done|].
  set (st1 := match find_player _ _ _ with Some r => _ | None => _ end).
  assert (Hst1 : same_ids (GameManager.objects s) st1).
  { unfold st1. destruct (find_player _ _ _);
      [apply mark_ready_same_ids | apply same_ids_refl]. }
  destruct (forallb _ _); simpl.
  - eapply Inv_update_room; eauto.
    + eapply same_ids_trans; [done | apply foldl_swap_same_ids].
    + apply createEmptyBoard_board3x3.
  - eapply Inv_update_room; eauto. simpl. eapply inv_board; eauto.
Qed.

Lemma Inv_leaveRoom (s : GameManager.State) (playerId : string) :
  Inv s → Inv (GameManager.leaveRoom s playerId).2.
Proof.
  intros Hinv. unfold GameManager.leaveRoom.
  destruct (GameManager.playerRooms s !! playerId) as [roomId|] eqn:Hmap; [|done].
  case_bool_decide as Hne; [done|].
  destruct (GameManager.rooms s !! roomId) as [room|] eqn:Hroom; [|done].
  destruct Hinv as [H1 H2 H3 H4].
  set (players' := filter _ (players (game room))).
  set (spectators' := filter _ (spectators room)).
  set (room' := {| room_id := room_id room; game := _; spectators := spectators' |}).
  assert (Hstay : ∀ c, c ≠ playerId → c ∈ player_ids (GameManager.objects s) room →
            c ∈ player_ids (GameManager.objects s) room').
  { intros c Hc. unfold player_ids. simpl. unfold players'.
    rewrite !list_elem_of_fmap. intros (r & -> & Hr). exists r. split; [done|].
    apply list_elem_of_filter. done. }
  split; simpl.
  - intros c r Hc. apply lookup_delete_Some in Hc as [Hcne Hc].
    destruct (H1 _ _ Hc) as (Hr & room0 & Hroom0 & Hin). split; [done|].
    destruct (decide (roomId = r)) as [->|Hrne].
    + simplify_eq. specialize (Hstay c (not_eq_sym Hcne) Hin).
      assert (length players' ≠ 0)%nat.
      { unfold player_ids in Hstay. simpl in Hstay.
        destruct players'; [by apply elem_of_nil in Hstay | done]. }
      rewrite bool_decide_eq_false_2 by done. simpl.
      exists room'. by rewrite lookup_insert_eq.
    + exists room0. split; [|done].
      destruct (_ && _); [rewrite lookup_delete_ne by done|];
        by rewrite lookup_insert_ne.
  - intros r room0 Hr.
    assert (Hr' : <[roomId := room']> (GameManager.rooms s) !! r = Some room0).
    { destruct (_ && _); [by apply lookup_delete_Some in Hr as [_ Hr]|done]. }
    apply lookup_insert_Some in Hr' as [[<- <-]|[_ Hr']]; simpl.
    + etrans; [apply length_filter|]. by eapply H2.
    + by eapply H2.
  - intros r room0 Hr.
    assert (Hr' : <[roomId := room']> (GameManager.rooms s) !! r = Some room0).
    { destruct (_ && _); [by apply lookup_delete_Some in Hr as [_ Hr]|done]. }
    apply lookup_insert_Some in Hr' as [[<- <-]|[_ Hr']]; simpl; by eapply H3.
  - destruct (_ && _); [rewrite lookup_delete_ne by done|];
      by rewrite lookup_insert_ne.
Qed.

Lemma Inv_handle (s : GameManager.State) (rq : Request) :
  Inv s → uuid_fresh s rq → Inv (handle s rq).
Proof.
  intros Hinv Hfresh. destruct rq; simpl in *.
  - by apply Inv_createRoom.
  - by apply Inv_joinRoom.
  - by apply Inv_findMatch.
  - by apply Inv_makeMove.
  - by apply Inv_handleRematch.
  - by apply Inv_leaveRoom.
Qed.

Lemma reachable_Inv (s : GameManager.State) : reachable s → Inv s.
Proof.
  induction 1 as [st|s rq _ IH Hfresh].
  - apply Inv_empty.
  - by apply Inv_handle.
Qed.

Lemma reachable_run (s : GameManager.State) (rqs : list Request) :
  reachable s → all_fresh s rqs → reachable (run s rqs).
Proof.
  revert s. induction rqs as [|rq rest IH]; intros s Hs Hf; [done|].
  destruct Hf as [Hrq Hrest]. apply IH; [by constructor | done].
Qed.

(** Closes [reachable] goals on the concrete sessions. *)
Ltac reach :=
  apply reachable_run; [apply reachable_empty | vm_compute; repeat split; done].

Lemma session_started_reachable : reachable session_started.
Proof. reach. Qed.

(** ** Moves through the manager *)

Lemma find_player_Some (st : Store) (ps : list ref) (playerId : string) (r : ref) :
  find_player st ps playerId = Some r → r ∈ ps ∧ player_id (st r) = playerId.
Proof.
  unfold find_player. induction ps as [|r' ps IH]; [done|]. simpl.
  case_bool_decide.
  - intros [= <-]. split; [set_solver | done].
  - intros H'. destruct (IH H'). split; [set_solver | done].
Qed.


Lemma set_room_same (s : GameManager.State) (roomId : string) (room : GameRoom) :
  GameManager.rooms s !! roomId = Some room →
  GameManager.set_room s roomId (GameManager.with_game room (game room)) = s.
Proof.
  intros H. destruct s as [rs pr q st], room as [rid g sp].
  unfold GameManager.set_room, GameManager.with_game. simpl in *.
  f_equal. by apply insert_id.
Qed.


Lemma try_catch_completes (body : Async unit) (message : string) :
  completes (try_catch body message).
Proof.
  intros db tr. unfold try_catch.
  destruct (body db tr) as [tr' [[]|]]; eauto.
Qed.

Lemma ret_completes : completes (ret tt).
Proof. intros db tr. by exists tr. Qed.

Lemma bind_completes (m : Async unit) (k : unit → Async unit) :
  completes m → (∀ u, completes (k u)) → completes (bind m k).
Proof.
  intros Hm Hk db tr. unfold bind.
  destruct (Hm db tr) as [tr1 ->]. apply Hk.
Qed.

Lemma persist_completes (st : Store) (g : GameState) :
  completes (GameManager.persist st g).
Proof.
  unfold GameManager.persist. apply bind_completes.
  - apply try_catch_completes.
  - intros _. case_bool_decide;
      [apply try_catch_completes | apply ret_completes].
Qed.




(** C9.  Whatever the sink answers to [saveGame] and [updatePlayerStats],
    the promise of [makeMove] resolves, and it resolves with the answer
    and the state it has when the sink never fails: a move that is
    accepted stays accepted and the game is the same. *)
Theorem makeMove_ignores_sink (db : DatabaseManager) (s : GameManager.State)
    (playerId : string) (row col : Z) :
  (GameManager.makeMove db s playerId row col).1.1 ≠ None ∧
  (GameManager.makeMove db s playerId row col).1 =
  (GameManager.makeMove sink_up s playerId row col).1.
Proof.
  assert (H : ∀ db',
    (GameManager.makeMove db' s playerId row col).1 =
    match GameManager.playerRooms s !! playerId with
    | None => (Some (GameManager.Failure "Player not in any room"), s)
    | Some roomId =>
        if bool_decide (roomId = "")
        then (Some (GameManager.Failure "Player not in any room"), s)
        else match GameManager.rooms s !! roomId with
             | None => (Some (GameManager.Failure "Room not found"), s)
             | Some room =>
                 let r := GameLogic.makeMove (GameManager.objects s) (game room)
                            playerId row col in
                 (Some match r.1 with
                       | Some e => GameManager.Failure e
                       | None => GameManager.Success (GameManager.with_game room r.2)
                       end,
                  GameManager.set_room s roomId (GameManager.with_game room r.2))
             end
    end).
  { intros db'. unfold GameManager.makeMove.
    destruct (GameManager.playerRooms s !! playerId) as [roomId|]; [|done].
    case_bool_decide; [done|].
    destruct (GameManager.rooms s !! roomId) as [room|]; [|done].
    destruct (GameLogic.makeMove _ _ _ _ _) as [[e|] g']; simpl; [done|].
    by destruct (persist_completes (GameManager.objects s) g' db' []) as [tr ->]. }
  split; [|by rewrite (H db), (H sink_up)].
  rewrite (H db). repeat case_match; done.
Qed.

(** The winning move of [session_won] against a sink that rejects every
    call: the move is accepted, the game is finished and won, and the two
    failures went to the console. *)
Example makeMove_sink_down :
  GameManager.makeMove sink_down session_four_moves "socket1" 0 2 =
  (Some (GameManager.Success
           {| room_id := "room-1"; game := game_won; spectators := [] |}),
   (GameManager.makeMove sink_up session_four_moves "socket1" 0 2).1.2,
   [ SaveGame game_won 123 456;
     ConsoleError "Failed to save game:";
     UpdatePlayerStats 123 "win";
     ConsoleError "Failed to update player stats:" ]).
Proof. reflexivity. Qed.

(** ** Joining *)



(** C10.  [joinRoom] does not compare the joiner with the player already
    in the room: when the room's player list is [[p]] and [p] itself
    joins, the call succeeds, the list becomes [[p; p]], the game is
    [playing], and its two slots are the same object, so they carry the
    same connection and the same mark (the one written last). *)
Theorem joinRoom_own_room (s : GameManager.State) (roomId : string)
    (room : GameRoom) (p : ref) (c : bool) (gameId : string) :
  GameManager.rooms s !! roomId = Some room →
  players (game room) = [p] →
  let r := GameManager.joinRoom s roomId p c gameId in
  let st' := GameManager.objects r.2 in
  ∃ room',
    r.1 = GameManager.Success room' ∧
    GameManager.rooms r.2 !! roomId = Some room' ∧
    players (game room') = [p; p] ∧
    status (game room') = playing ∧
    (∀ a b, a ∈ players (game room') → b ∈ players (game room') →
            player_id (st' a) = player_id (GameManager.objects s p) ∧
            player_id (st' a) = player_id (st' b) ∧
            symbol (st' a) = symbol (st' b)) ∧
    symbol (st' p) = (if c then O else X).
Proof.
  intros Hroom Hp. simpl. unfold GameManager.joinRoom. rewrite Hroom, Hp. simpl.
  eexists. split_and!; [done | by rewrite lookup_insert_eq | done | done | |].
  - intros a b Ha Hb. simpl in *.
    assert (a = p) as -> by set_solver. assert (b = p) as -> by set_solver.
    rewrite !fn_lookup_insert. by simpl.
  - rewrite !fn_lookup_insert. done.
Qed.

Lemma joinRoom_own_room_witness :
  ∃ room',
    (GameManager.joinRoom session_waiting "room-1" 0%nat true "game-2").1
      = GameManager.Success room' ∧
    players (game room') = [0; 0]%nat ∧ status (game room') = playing.
Proof.
  destruct (joinRoom_own_room session_waiting "room-1"
              {| room_id := "room-1";
                 game := {| game_id := "game-1"; players := [0%nat];
                            board := GameLogic.createEmptyBoard;
                            currentPlayer := X; status := waiting;
                            result := None |};
                 spectators := [] |}
              0%nat true "game-2" eq_refl eq_refl)
    as (room' & H1 & _ & H3 & H4 & _).
  exists room'. by split_and!.
Defined.

(** ** One room per connection *)





(** ** Leaving *)

Lemma remove_first_not_in (x : string) (q : list string) :
  x ∉ q → remove_first x q = q.
Proof.
  induction q as [|y q IH]; [done|]. simpl. intros Hx.
  case_bool_decide; [set_solver|]. rewrite IH; [done | set_solver].
Qed.

(** X14.  What [leaveRoom] does for a connection that [playerRooms] maps to a
    registered room: it filters the connection out of the players and the
    spectators of that room, takes its first entry out of the queue,
    forgets its room, answers with the room identifier, deletes the room
    exactly when both lists are then empty, and a second call answers
    [{ success: false }]. *)
Lemma leaveRoom_mapped (s : GameManager.State) (playerId roomId : string)
    (room : GameRoom) :
  GameManager.playerRooms s !! playerId = Some roomId → roomId ≠ "" →
  GameManager.rooms s !! roomId = Some room →
  let r := GameManager.leaveRoom s playerId in
  let players' := filter (λ p, player_id (GameManager.objects s p) ≠ playerId)
                         (players (game room)) in
  let spectators' := filter (λ sid, sid ≠ playerId) (spectators room) in
  r.1 = Some roomId ∧
  GameManager.playerRooms r.2 !! playerId = None ∧
  GameManager.matchmakingQueue r.2
    = remove_first playerId (GameManager.matchmakingQueue s) ∧
  (players' = [] ∧ spectators' = [] → GameManager.rooms r.2 !! roomId = None) ∧
  (¬ (players' = [] ∧ spectators' = []) →
   ∃ room', GameManager.rooms r.2 !! roomId = Some room' ∧
            players (game room') = players' ∧ spectators room' = spectators') ∧
  (GameManager.leaveRoom r.2 playerId).1 = None.
Proof.
  intros Hmap Hne Hroom. simpl. unfold GameManager.leaveRoom at 1 2 3 4 5.
  rewrite Hmap, bool_decide_eq_false_2, Hroom by done. simpl.
  split_and!; [done | by rewrite lookup_delete_eq | done | | |].
  - intros [-> ->]. simpl. by rewrite lookup_delete_eq.
  - intros Hnot.
    destruct (bool_decide _ && bool_decide _) eqn:E.
    + exfalso. apply Hnot. apply andb_true_iff in E as [E1 E2].
      apply bool_decide_eq_true in E1, E2.
      split; by apply length_zero_iff_nil.
    + eexists. by rewrite lookup_insert_eq.
  - unfold GameManager.leaveRoom.
    rewrite Hmap, bool_decide_eq_false_2, Hroom by done. simpl.
    by rewrite lookup_delete_eq.
Qed.

Lemma session_spectator_reachable : reachable session_spectator.
Proof.
  apply reachable_run; [exact session_started_reachable | vm_compute; repeat split; done].
Qed.

(** C5, the failing case.  [socket3] joined a full room and is one of its
    spectators.  [leaveRoom "socket3"] answers [{ success: false }] and
    changes nothing: [socket3] is still among the spectators. *)
Theorem leaveRoom_spectator_stays :
  reachable session_spectator ∧
  (∃ room, GameManager.getRoom session_spectator "room-1" = Some room ∧
           "socket3" ∈ spectators room) ∧
  GameManager.leaveRoom session_spectator "socket3" = (None, session_spectator).
Proof.
  split_and!.
  - exact session_spectator_reachable.
  - eexists. split; [vm_compute; reflexivity | set_solver].
  - unfold GameManager.leaveRoom.
    by replace (GameManager.playerRooms session_spectator !! "socket3")
      with (@None string) by (vm_compute; reflexivity).
Qed.

(** ** Rematch *)

(** X15.  What [handleRematch] does when the caller is one of two players with
    different connections, the game is finished and the other player is
    ready: a new game replaces the old one in the room, with the new
    identifier, the same two players, an empty board, status [playing],
    no result; each player's mark is the opposite of the one it had and
    both [isReady] flags are off; [currentPlayer] is the opposite of the
    finished game's [currentPlayer]. *)
Lemma handleRematch_both_ready (s : GameManager.State) (playerId gameId roomId : string)
    (room : GameRoom) (a b : ref) :
  let st := GameManager.objects s in
  GameManager.playerRooms s !! playerId = Some roomId → roomId ≠ "" →
  GameManager.rooms s !! roomId = Some room →
  status (game room) = finished →
  players (game room) = [a; b] →
  player_id (st a) ≠ player_id (st b) →
  (playerId = player_id (st a) ∧ isReady (st b) = true ∨
   playerId = player_id (st b) ∧ isReady (st a) = true) →
  let r := GameManager.handleRematch s playerId gameId in
  let st' := GameManager.objects r.2 in
  ∃ room',
    r.1 = GameManager.Success room' ∧
    GameManager.rooms r.2 !! roomId = Some room' ∧
    room_id room' = room_id room ∧ spectators room' = spectators room ∧
    game_id (game room') = gameId ∧
    players (game room') = [a; b] ∧
    board (game room') = GameLogic.createEmptyBoard ∧
    status (game room') = playing ∧
    result (game room') = None ∧
    currentPlayer (game room') = other (currentPlayer (game room)) ∧
    symbol (st' a) = other (symbol (st a)) ∧
    symbol (st' b) = other (symbol (st b)) ∧
    isReady (st' a) = false ∧ isReady (st' b) = false.
Proof.
  intros st Hmap Hne Hroom Hfin Hp Hids Hreq. simpl.
  assert (Hab : a ≠ b) by (intros ->; done).
  unfold GameManager.handleRematch.
  rewrite Hmap, bool_decide_eq_false_2, Hroom by done.
  rewrite bool_decide_eq_false_2 by (by rewrite Hfin; intros ?).
  rewrite Hp. fold st.
  set (st1 := match find_player st [a; b] playerId with
              | Some r => GameManager.mark_ready st r | None => st end).
  assert (Hst1 : (isReady (st1 a) = true ∧ isReady (st1 b) = true) ∧
                 symbol (st1 a) = symbol (st a) ∧ symbol (st1 b) = symbol (st b)).
  { unfold st1, find_player, GameManager.mark_ready. simpl.
    destruct Hreq as [[-> Hb]|[-> Ha]].
    - rewrite bool_decide_eq_true_2 by done.
      rewrite fn_lookup_insert, fn_lookup_insert_ne by done. done.
    - rewrite bool_decide_eq_false_2 by done.
      rewrite bool_decide_eq_true_2 by done.
      rewrite fn_lookup_insert, fn_lookup_insert_ne by done. done. }
  destruct Hst1 as ([Ha Hb] & Hsa & Hsb).
  simpl. rewrite Ha, Hb. simpl. rewrite Hp. simpl.
  eexists. split_and!; try done.
  - by rewrite lookup_insert_eq.
  - unfold GameLogic.swap_and_clear.
    rewrite fn_lookup_insert_ne, fn_lookup_insert by done. simpl. by rewrite Hsa.
  - unfold GameLogic.swap_and_clear.
    rewrite fn_lookup_insert. simpl. rewrite fn_lookup_insert_ne by done.
    by rewrite Hsb.
  - unfold GameLogic.swap_and_clear.
    by rewrite fn_lookup_insert_ne, fn_lookup_insert by done.
  - unfold GameLogic.swap_and_clear. by rewrite fn_lookup_insert.
Qed.

Lemma session_rematch_asked_reachable : reachable session_rematch_asked.
Proof.
  do 3 (apply reachable_run; [|vm_compute; repeat split; done]).
  exact session_started_reachable.
Qed.

(** C2, the failing case.  [socket1] held ['X'] and won; the finished game
    has [currentPlayer = 'X'].  Both players ask for a rematch.  The marks
    are swapped, the board is empty, the game is [playing] with no result
    and a new identifier, and the new [currentPlayer] is ['O'], not
    ['X']: it is [socket1], now holding ['O'], who moves first again. *)
Theorem rematch_starts_with_O :
  reachable session_rematch_asked ∧
  GameManager.getRoom session_rematch_asked "room-1" =
    Some {| room_id := "room-1";
            game := game_won;
            spectators := [] |} ∧
  symbol (GameManager.objects session_rematch_asked 0%nat) = X ∧
  symbol (GameManager.objects session_rematch_asked 1%nat) = O ∧
  let r := GameManager.handleRematch session_rematch_asked "socket2" "game-3" in
  r.1 = GameManager.Success
          {| room_id := "room-1";
             game := {| game_id := "game-3"; players := [0; 1]%nat;
                        board := GameLogic.createEmptyBoard;
                        currentPlayer := O; status := playing;
                        result := None |};
             spectators := [] |} ∧
  symbol (GameManager.objects r.2 0%nat) = O ∧
  symbol (GameManager.objects r.2 1%nat) = X ∧
  isReady (GameManager.objects r.2 0%nat) = false ∧
  isReady (GameManager.objects r.2 1%nat) = false.
Proof.
  split; [exact session_rematch_asked_reachable|].
  vm_compute. by split_and!.
Qed.

(** ** Matchmaking *)

Lemma enqueueInNewRoom_enqueued (s : GameManager.State) (p : ref)
    (roomId gameId : string) :
  enqueued (GameManager.enqueueInNewRoom s p roomId gameId) p roomId gameId
           (GameManager.matchmakingQueue s) ∧
  GameManager.objects (GameManager.enqueueInNewRoom s p roomId gameId).2
    = GameManager.objects s.
Proof.
  unfold enqueued, GameManager.enqueueInNewRoom. simpl.
  split_and!; try done; by rewrite lookup_insert_eq.
Qed.

Lemma findMatch_empty (s : GameManager.State) (p : ref) (c : bool)
    (roomId gameId : string) :
  remove_first (player_id (GameManager.objects s p)) (GameManager.matchmakingQueue s) = [] →
  enqueued (GameManager.findMatch s p c roomId gameId) p roomId gameId [] ∧
  GameManager.objects (GameManager.findMatch s p c roomId gameId).2
    = GameManager.objects s.
Proof.
  intros Hq. unfold GameManager.findMatch. simpl. rewrite Hq.
  apply (enqueueInNewRoom_enqueued (GameManager.set_queue s []) p roomId gameId).
Qed.

Lemma findMatch_head_joins (s : GameManager.State) (p : ref) (c : bool)
    (roomId gameId w wr : string) (rest : list string) (room : GameRoom) :
  remove_first (player_id (GameManager.objects s p)) (GameManager.matchmakingQueue s)
    = w :: rest →
  GameManager.playerRooms s !! w = Some wr → wr ≠ "" →
  GameManager.rooms s !! wr = Some room →
  length (players (game room)) = 1%nat →
  let r := GameManager.findMatch s p c roomId gameId in
  ∃ room',
    r.1 = Some room' ∧
    GameManager.rooms r.2 !! wr = Some room' ∧
    room_id room' = room_id room ∧
    players (game room') = players (game room) ++ [p] ∧
    status (game room') = playing ∧
    GameManager.matchmakingQueue r.2 = rest ∧
    GameManager.playerRooms r.2 !! player_id (GameManager.objects s p) = Some wr.
Proof.
  intros Hq Hmap Hne Hroom Hlen. simpl. unfold GameManager.findMatch. simpl.
  rewrite Hq, Hmap, bool_decide_eq_false_2, Hroom by done.
  rewrite bool_decide_eq_true_2 by done.
  unfold GameManager.joinRoom. simpl. rewrite Hroom.
  rewrite bool_decide_eq_false_2 by lia.
  destruct (players (game room)) as [|p0 [|p1 ps]] eqn:Hp; simplify_eq/=.
  eexists. split_and!; try done; by rewrite lookup_insert_eq.
Qed.

Lemma findMatch_head_falls_back (s : GameManager.State) (p : ref) (c : bool)
    (roomId gameId w : string) (rest : list string) :
  remove_first (player_id (GameManager.objects s p)) (GameManager.matchmakingQueue s)
    = w :: rest →
  ¬ owns_single_player_room s w →
  enqueued (GameManager.findMatch s p c roomId gameId) p roomId gameId rest.
Proof.
  intros Hq Hnot. unfold GameManager.findMatch. simpl. rewrite Hq.
  set (s1 := GameManager.set_queue (GameManager.set_queue s (w :: rest)) rest).
  pose proof (enqueueInNewRoom_enqueued s1 p roomId gameId) as [Hnew _].
  destruct (GameManager.playerRooms s !! w) as [wr|] eqn:Hmap; [|done].
  case_bool_decide as Hne; [done|].
  destruct (GameManager.rooms s !! wr) as [room|] eqn:Hroom; [|done].
  case_bool_decide as Hlen; [|done].
  destruct Hnot. by exists wr, room.
Qed.

Lemma session_abandoned_reachable : reachable session_abandoned.
Proof. reach. Qed.

(** C8, as stated, fails in its last clause.  [socket1] is at the head of
    the queue; its room has one player but is [playing], not [waiting],
    since [socket2] joined it and left.  [findMatch] for [socket3] does not
    fall back: it joins [socket3] into that room and reports a match. *)
Lemma matched_into_playing_room :
  reachable session_abandoned ∧
  ¬ fallback_when_not_waiting session_abandoned 2%nat true "room-2" "game-3".
Proof.
  split; [exact session_abandoned_reachable|]. intros H.
  specialize (H "socket1" [] eq_refl).
  assert (Hmatched :
    (GameManager.findMatch session_abandoned 2%nat true "room-2" "game-3").1 ≠ None)
    by (vm_compute; discriminate).
  apply Hmatched, H. intros (wr & room & Hmap & Hroom & _ & Hst).
  assert (wr = "room-1") as -> by (vm_compute in Hmap; congruence).
  vm_compute in Hroom. by simplify_eq.
Qed.

(** C8, amended.  Matchmaking is first in, first out and never drops the
    caller.  (1) From an empty queue, [findMatch p1] reports no match and
    leaves [p1] queued alone in a new [waiting] room; a following
    [findMatch p2] by another connection reports a match with that room,
    whose players are exactly [[p1; p2]] and whose status is [playing],
    and empties the queue.  (2) In any state, once the caller's own entry
    is taken out, the head [w] of the queue is popped: if [w] is mapped to
    a registered room with exactly one player (whatever its status), the
    caller joins that room and the match is reported; otherwise the caller
    is placed alone in a new [waiting] room and appended to the rest of
    the queue, and no match is reported. *)
Theorem findMatch_fifo (s : GameManager.State) (p1 p2 : ref) (c1 c2 : bool)
    (roomId gameId roomId2 gameId2 : string) :
  let st := GameManager.objects s in
  let r1 := GameManager.findMatch s p1 c1 roomId gameId in
  let r2 := GameManager.findMatch r1.2 p2 c2 roomId2 gameId2 in
  (GameManager.matchmakingQueue s = [] → roomId ≠ "" →
   player_id (st p2) ≠ player_id (st p1) →
   enqueued r1 p1 roomId gameId [] ∧
   ∃ room', r2.1 = Some room' ∧
            GameManager.rooms r2.2 !! roomId = Some room' ∧
            room_id room' = roomId ∧
            players (game room') = [p1; p2] ∧
            status (game room') = playing ∧
            GameManager.matchmakingQueue r2.2 = []) ∧
  (∀ w rest,
     remove_first (player_id (st p1)) (GameManager.matchmakingQueue s) = w :: rest →
     (∀ wr room,
        GameManager.playerRooms s !! w = Some wr → wr ≠ "" →
        GameManager.rooms s !! wr = Some room →
        length (players (game room)) = 1%nat →
        ∃ room', r1.1 = Some room' ∧
                 GameManager.rooms r1.2 !! wr = Some room' ∧
                 players (game room') = players (game room) ++ [p1] ∧
                 status (game room') = playing ∧
                 GameManager.matchmakingQueue r1.2 = rest) ∧
     (¬ owns_single_player_room s w → enqueued r1 p1 roomId gameId rest)).
Proof.
  simpl. split.
  - intros Hq Hne Hids.
    destruct (findMatch_empty s p1 c1 roomId gameId) as [Hfirst Hst];
      [by rewrite Hq|].
    split; [done|].
    destruct Hfirst as (_ & Hq1 & Hroom1 & Hmap1). rewrite Hst in *.
    destruct (findMatch_head_joins
                (GameManager.findMatch s p1 c1 roomId gameId).2 p2 c2
                roomId2 gameId2 (player_id (GameManager.objects s p1)) roomId []
                (waiting_room roomId gameId p1))
      as (room' & H1 & H2 & H3 & H4 & H5 & H6 & _); try done.
    { rewrite Hq1, Hst. simpl. by rewrite bool_decide_eq_false_2 by done. }
    by exists room'.
  - intros w rest Hq. split.
    + intros wr room Hmap Hne Hroom Hlen.
      destruct (findMatch_head_joins s p1 c1 roomId gameId w wr rest room)
        as (room' & H1 & H2 & H3 & H4 & H5 & H6 & _); try done.
      by exists room'.
    + by apply findMatch_head_falls_back.
Qed.

Lemma findMatch_fifo_witness :
  let r1 := GameManager.findMatch (GameManager.empty three_players)
              0%nat true "room-1" "game-1" in
  let r2 := GameManager.findMatch r1.2 1%nat true "room-2" "game-2" in
  enqueued r1 0%nat "room-1" "game-1" [] ∧
  ∃ room', r2.1 = Some room' ∧
           GameManager.rooms r2.2 !! "room-1" = Some room' ∧
           room_id room' = "room-1" ∧
           players (game room') = [0; 1]%nat ∧
           status (game room') = playing ∧
           GameManager.matchmakingQueue r2.2 = [].
Proof.
  refine (proj1 (findMatch_fifo (GameManager.empty three_players)
                   0%nat 1%nat true true "room-1" "game-1" "room-2" "game-2")
            eq_refl _ _); discriminate.
Defined.

(** * Further properties of the code *)

(** ** Counting moves ([getGameStats]) *)

Section Counting.
Context {A : Type} (P : A → Prop) `{!∀ x, Decision (P x)}.

Lemma length_filter_all (l : list A) :
  length (filter P l) = length l ↔ Forall P l.
Proof.
  induction l as [|x l IH]; [by split; [constructor|]|].
  rewrite filter_cons. destruct (decide (P x)) as [Hx|Hx]; simpl.
  - split.
    + intros [= E]. constructor; [done | by apply IH].
    + inversion 1; subst. f_equal. by apply IH.
  - pose proof (length_filter P l). split; [lia | by inversion 1].
Qed.

Lemma length_filter_agree (Q : A → Prop) `{!∀ x, Decision (Q x)} (l : list A) :
  (∀ y, y ∈ l → (P y ↔ Q y)) → length (filter P l) = length (filter Q l).
Proof.
  induction l as [|y l IH]; intros Hagree; [done|].
  rewrite !filter_cons.
  assert (IH' : length (filter P l) = length (filter Q l)).
  { apply IH. intros z Hz. apply Hagree. by right. }
  destruct (decide (P y)) as [Hp|Hp].
  - rewrite decide_True by (apply Hagree; [by left | done]). simpl. by rewrite IH'.
  - rewrite decide_False; [done|]. intros Hq. apply Hp, Hagree; [by left | done].
Qed.

(** Turning one element of a duplicate-free list from outside [P] to
    inside adds one to the count. *)
Lemma length_filter_one_more (Q : A → Prop) `{!∀ x, Decision (Q x)}
    (l : list A) (x : A) :
  NoDup l → x ∈ l → ¬ P x → Q x → (∀ y, y ≠ x → (P y ↔ Q y)) →
  length (filter Q l) = S (length (filter P l)).
Proof.
  intros Hnd Hx HPx HQx Hother.
  induction l as [|y l IH]; [by apply elem_of_nil in Hx|].
  apply NoDup_cons in Hnd as [Hy Hnd]. rewrite !filter_cons.
  apply elem_of_cons in Hx as [->|Hx].
  - rewrite decide_True, decide_False by done. simpl. f_equal.
    symmetry. apply length_filter_agree.
    intros z Hz. apply Hother. intros ->. done.
  - assert (Hne : y ≠ x) by (intros ->; done).
    specialize (IH Hnd Hx).
    destruct (decide (P y)) as [Hp|Hp].
    + rewrite decide_True by (by apply Hother). simpl. by rewrite IH.
    + rewrite decide_False by (by rewrite <- Hother). done.
Qed.
End Counting.

Lemma foldl_count {A : Type} (P : A → Prop) `{!∀ x, Decision (P x)}
    (l : list A) (a : Z) :
  foldl (λ total x, if bool_decide (P x) then total + 1 else total) a l
  = a + Z.of_nat (length (filter P l)).
Proof.
  revert a. induction l as [|x l IH]; intros a; simpl; [lia|].
  rewrite IH, filter_cons. case_bool_decide.
  - rewrite decide_True by done. simpl. lia.
  - by rewrite decide_False by done.
Qed.

Lemma nested_count (P : nat → nat → Prop) `{!∀ x y, Decision (P x y)}
    (rows cols : list nat) (a : Z) :
  foldl (λ total row,
           foldl (λ total col, if bool_decide (P row col) then total + 1 else total)
                 total cols) a rows
  = a + Z.of_nat (length (filter (λ p : nat * nat, P p.1 p.2) (list_prod rows cols))).
Proof.
  revert a. induction rows as [|row rows IH]; intros a; simpl; [lia|].
  rewrite IH, (foldl_count (P row)), filter_app, length_app.
  assert (E : length (filter (λ p : nat * nat, P p.1 p.2) (map (λ y, (row, y)) cols))
              = length (filter (P row) cols)).
  { clear. induction cols as [|c cols IHc]; [done|]. simpl.
    rewrite !filter_cons. simpl. destruct (decide (P row c)); simpl; by rewrite IHc. }
  rewrite E. lia.
Qed.

Lemma positions_NoDup : NoDup positions.
Proof.
  unfold positions.
  repeat (apply NoDup_cons; split; [set_solver|]). apply NoDup_nil_2.
Qed.

Lemma elem_of_positions (row col : nat) :
  (row, col) ∈ positions ↔ (row < 3 ∧ col < 3)%nat.
Proof.
  split.
  - unfold positions. intros Hin.
    repeat (apply elem_of_cons in Hin as [[= -> ->]|Hin]; [lia|]).
    by apply elem_of_nil in Hin.
  - intros [Hr Hc].
    destruct row as [|[|[|?]]]; [| | |lia];
    (destruct col as [|[|[|?]]]; [| | |lia]); unfold positions; set_solver.
Qed.

(** The counter of the two loops is the number of cells that are not
    [null]. *)
Lemma totalMoves_count (b : GameBoard) :
  GameLogic.totalMoves (GameLogic.getGameStats b) =
  Z.of_nat (length (filter (λ p : Position, cellAt b p.1 p.2 ≠ Some None) positions)).
Proof.
  exact (nested_count (λ row col, cellAt b row col ≠ Some None)
           [0; 1; 2]%nat [0; 1; 2]%nat 0).
Qed.

Lemma totalMoves_range (b : GameBoard) :
  0 ≤ GameLogic.totalMoves (GameLogic.getGameStats b) ≤ 9.
Proof.
  rewrite totalMoves_count.
  pose proof (length_filter (λ p : Position, cellAt b p.1 p.2 ≠ Some None) positions)
    as H. change (length positions) with 9%nat in H. lia.
Qed.

(** The counter is short of nine exactly when one of the nine cells is
    [null]. *)
Lemma totalMoves_lt_9 (b : GameBoard) :
  GameLogic.totalMoves (GameLogic.getGameStats b) < 9 ↔ some_empty b.
Proof.
  rewrite totalMoves_count.
  pose proof (length_filter (λ p : Position, cellAt b p.1 p.2 ≠ Some None) positions)
    as Hle. change (length positions) with 9%nat in Hle.
  pose proof (length_filter_all (λ p : Position, cellAt b p.1 p.2 ≠ Some None) positions)
    as Hall. change (length positions) with 9%nat in Hall.
  split.
  - intros Hlt.
    assert (Hn : ¬ Forall (λ p : Position, cellAt b p.1 p.2 ≠ Some None) positions)
      by (rewrite <- Hall; lia).
    apply not_Forall_Exists in Hn; [|apply _].
    apply Exists_exists in Hn as ([row col] & Hin & Hp). simpl in Hp.
    apply elem_of_positions in Hin as [Hr Hc].
    exists row, col. split_and!; [done..|]. by apply dec_stable.
  - intros (row & col & Hr & Hc & E).
    assert (Hn : ¬ Forall (λ p : Position, cellAt b p.1 p.2 ≠ Some None) positions).
    { rewrite Forall_forall. intros H.
      by apply (H (row, col)); [apply elem_of_positions|]. }
    rewrite <- Hall in Hn. lia.
Qed.

(** X1.  On a 3x3 board [getGameStats] counts between 0 and 9 moves;
    [movesLeft] is 0 exactly when every cell is occupied; and when it
    reports the game active there is at least one move left. *)
Theorem getGameStats_consistent (b : GameBoard) :
  board3x3 b →
  let stats := GameLogic.getGameStats b in
  0 ≤ GameLogic.totalMoves stats ≤ 9 ∧
  0 ≤ GameLogic.movesLeft stats ≤ 9 ∧
  (GameLogic.movesLeft stats = 0 ↔ all_occupied b) ∧
  (GameLogic.isGameActive stats = true → 1 ≤ GameLogic.movesLeft stats).
Proof.
  intros Hb. cbv zeta.
  change (GameLogic.movesLeft (GameLogic.getGameStats b))
    with (9 - GameLogic.totalMoves (GameLogic.getGameStats b)).
  change (GameLogic.isGameActive (GameLogic.getGameStats b))
    with (bool_decide (GameLogic.checkGameResult b = None)).
  pose proof (totalMoves_range b) as Hrange.
  pose proof (totalMoves_lt_9 b) as Hlt.
  pose proof (not_all_occupied b Hb) as Hfull.
  pose proof (isBoardFull_all_occupied b Hb) as Hocc.
  set (t := GameLogic.totalMoves (GameLogic.getGameStats b)) in *.
  split_and!; [lia | lia | lia | lia | |].
  - rewrite <- Hocc. destruct (GameLogic.isBoardFull b) eqn:E.
    + split; [done|]. intros _.
      destruct (decide (t < 9)) as [H|H]; [|lia]. apply Hlt, Hfull in H. done.
    + split; [|done]. intros H. destruct (proj1 Hfull eq_refl) as (r & c & ?).
      assert (t < 9) by (apply Hlt; by exists r, c). lia.
  - intros Hactive. apply bool_decide_eq_true in Hactive.
    rewrite checkGameResult_scan in Hactive.
    destruct (scan (line_mark b) lines); [done|].
    destruct (GameLogic.isBoardFull b); [done|].
    assert (t < 9) by (by apply Hlt, Hfull). lia.
Qed.

Lemma getGameStats_consistent_witness :
  board3x3 board_win_row0 ∧
  0 ≤ GameLogic.totalMoves (GameLogic.getGameStats board_win_row0) ≤ 9.
Proof.
  assert (H : board3x3 board_win_row0).
  { split; [reflexivity | repeat constructor]. }
  split; [exact H | exact (proj1 (getGameStats_consistent board_win_row0 H))].
Defined.

Lemma isValidMove_true (b : GameBoard) (row col : Z) :
  GameLogic.isValidMove b row col = true ↔
  0 ≤ row ≤ 2 ∧ 0 ≤ col ≤ 2 ∧ cellAt b (Z.to_nat row) (Z.to_nat col) = Some None.
Proof.
  unfold GameLogic.isValidMove. destruct (_ || _) eqn:Hrange.
  - split; [done | lia].
  - rewrite bool_decide_eq_true. split; [intros ?; split_and!; (lia || done) | tauto].
Qed.


(** ** What a move does to the board *)

Lemma cellAt_setCell_eq (b : GameBoard) (row col : nat) (v' : CellValue) :
  is_Some (cellAt b row col) →
  cellAt (GameLogic.setCell b row col v') row col = Some v'.
Proof.
  unfold cellAt, GameLogic.setCell. intros [v Hv].
  rewrite list_lookup_alter_eq.
  destruct (b !! row) as [r|] eqn:Er; [|done]. simpl in *.
  apply list_lookup_insert_eq. by eapply lookup_lt_Some.
Qed.

Lemma cellAt_setCell_ne (b : GameBoard) (row col row' col' : nat) (v' : CellValue) :
  (row', col') ≠ (row, col) →
  cellAt (GameLogic.setCell b row col v') row' col' = cellAt b row' col'.
Proof.
  unfold cellAt, GameLogic.setCell. intros Hne.
  destruct (decide (row = row')) as [->|Hr].
  - rewrite list_lookup_alter_eq.
    destruct (b !! row') as [r|] eqn:Er; [|done]. simpl.
    apply list_lookup_insert_ne. congruence.
  - by rewrite list_lookup_alter_ne.
Qed.

Lemma makeMove_cells (st : Store) (g g' : GameState)
    (playerId : string) (row col : Z) :
  GameLogic.makeMove st g playerId row col = (None, g') →
  0 ≤ row ≤ 2 ∧ 0 ≤ col ≤ 2 ∧
  cellAt (board g) (Z.to_nat row) (Z.to_nat col) = Some None ∧
  cellAt (board g') (Z.to_nat row) (Z.to_nat col) = Some (Some (currentPlayer g)) ∧
  (∀ row' col', (row', col') ≠ (Z.to_nat row, Z.to_nat col) →
     cellAt (board g') row' col' = cellAt (board g) row' col') ∧
  (∀ row' col' m, cellAt (board g) row' col' = Some (Some m) →
     cellAt (board g') row' col' = Some (Some m)).
Proof.
  intros H. apply makeMove_accepted in H
    as (r & _ & _ & Hsym & Hvalid & _ & _ & Hboard & _).
  apply isValidMove_true in Hvalid as (Hr & Hc & Hcell).
  rewrite Hboard, Hsym. split_and!; try lia; try done.
  - apply cellAt_setCell_eq. by rewrite Hcell.
  - intros row' col' Hne. by apply cellAt_setCell_ne.
  - intros row' col' m Hm. rewrite cellAt_setCell_ne; [done|].
    intros [= -> ->]. congruence.
Qed.

(** X3.  An accepted move writes the mover's mark into the target cell,
    which was [null], and leaves every other cell as it was: a mark once
    on the board is never changed or removed by a move. *)
Theorem makeMove_writes_one_cell (st : Store) (g g' : GameState)
    (playerId : string) (row col : Z) :
  GameLogic.makeMove st g playerId row col = (None, g') →
  0 ≤ row ≤ 2 ∧ 0 ≤ col ≤ 2 ∧
  cellAt (board g) (Z.to_nat row) (Z.to_nat col) = Some None ∧
  cellAt (board g') (Z.to_nat row) (Z.to_nat col) = Some (Some (currentPlayer g)) ∧
  (∀ row' col', (row', col') ≠ (Z.to_nat row, Z.to_nat col) →
     cellAt (board g') row' col' = cellAt (board g) row' col') ∧
  (∀ row' col' m, cellAt (board g) row' col' = Some (Some m) →
     cellAt (board g') row' col' = Some (Some m)).
Proof. apply makeMove_cells. Qed.

Lemma makeMove_writes_one_cell_witness :
  cellAt (board game_started) (Z.to_nat 1) (Z.to_nat 1) = Some None ∧
  cellAt (board game_after_centre) (Z.to_nat 1) (Z.to_nat 1)
    = Some (Some (currentPlayer game_started)).
Proof.
  destruct (makeMove_writes_one_cell (GameManager.objects session_started)
              game_started game_after_centre "socket1" 1 1 eq_refl)
    as (_ & _ & H1 & H2 & _).
  by split.
Defined.

(** X4.  An accepted move adds exactly one to the number of moves that
    [getGameStats] counts. *)
Theorem makeMove_counts_one_more (st : Store) (g g' : GameState)
    (playerId : string) (row col : Z) :
  GameLogic.makeMove st g playerId row col = (None, g') →
  GameLogic.totalMoves (GameLogic.getGameStats (board g'))
  = GameLogic.totalMoves (GameLogic.getGameStats (board g)) + 1.
Proof.
  intros H. apply makeMove_accepted in H
    as (r & _ & _ & _ & Hvalid & _ & _ & Hboard & _).
  apply isValidMove_true in Hvalid as (Hr & Hc & Hcell).
  rewrite !totalMoves_count, Hboard.
  rewrite (length_filter_one_more
             (λ p : Position, cellAt (board g) p.1 p.2 ≠ Some None)
             (λ p : Position,
                cellAt (GameLogic.setCell (board g) (Z.to_nat row) (Z.to_nat col)
                          (Some (symbol (st r)))) p.1 p.2 ≠ Some None)
             positions (Z.to_nat row, Z.to_nat col)).
  - lia.
  - apply positions_NoDup.
  - apply elem_of_positions. lia.
  - simpl. by rewrite Hcell; intros ?.
  - simpl. rewrite cellAt_setCell_eq; [done | by rewrite Hcell].
  - intros [row' col'] Hne. simpl. by rewrite cellAt_setCell_ne.
Qed.

Lemma makeMove_counts_one_more_witness :
  GameLogic.totalMoves (GameLogic.getGameStats (board game_after_centre))
  = GameLogic.totalMoves (GameLogic.getGameStats (board game_started)) + 1.
Proof.
  exact (makeMove_counts_one_more (GameManager.objects session_started)
           game_started game_after_centre "socket1" 1 1 eq_refl).
Defined.

(** X5.  When the board had no result before an accepted move and has a
    winner after it, the winner is the mark that moved, and that is what
    the game records. *)
Theorem makeMove_winner_is_mover (st : Store) (g g' : GameState)
    (playerId : string) (row col : Z) (m : Mark) :
  GameLogic.makeMove st g playerId row col = (None, g') →
  GameLogic.checkGameResult (board g) = None →
  GameLogic.checkGameResult (board g') = Some (Win m) →
  m = currentPlayer g ∧ result g' = Some (Win m) ∧ status g' = finished.
Proof.
  intros H Hbefore Hafter.
  pose proof (makeMove_cells st g g' playerId row col H)
    as (_ & _ & _ & Htarget & Hothers & _).
  apply makeMove_accepted in H as (r & _ & _ & _ & _ & _ & _ & _ & Hres).
  rewrite Hafter in Hres. destruct Hres as (_ & Hst & Hresult).
  split; [|done].
  rewrite checkGameResult_scan in Hbefore, Hafter.
  destruct (scan (line_mark (board g)) lines) eqn:Enone; [done|].
  destruct (scan (line_mark (board g')) lines) as [m'|] eqn:Esome;
    [|by destruct (GameLogic.isBoardFull (board g'))].
  simplify_eq. apply scan_Some in Esome as (before & l & after & El & Hl & _).
  rewrite scan_None, Forall_forall in Enone.
  assert (Hin : l ∈ lines) by (rewrite El; set_solver).
  specialize (Enone l Hin). rewrite line_mark_None in Enone.
  apply line_mark_Some in Hl. destruct l as [[p1 p2] p3].
  destruct Hl as (H1 & H2 & H3).
  set (target := (Z.to_nat row, Z.to_nat col)) in *.
  assert (Hhit : ∀ p : Position, p = target →
            cellAt (board g') p.1 p.2 = Some (Some m) → m = currentPlayer g).
  { intros p -> Hp. simpl in Hp. congruence. }
  destruct (decide (p1 = target)) as [E1|N1]; [by eapply Hhit|].
  destruct (decide (p2 = target)) as [E2|N2]; [by eapply Hhit|].
  destruct (decide (p3 = target)) as [E3|N3]; [by eapply Hhit|].
  destruct (Enone m). split_and!.
  - rewrite <- (Hothers p1.1 p1.2); [done | by destruct p1].
  - rewrite <- (Hothers p2.1 p2.2); [done | by destruct p2].
  - rewrite <- (Hothers p3.1 p3.2); [done | by destruct p3].
Qed.

Lemma makeMove_winner_is_mover_witness :
  X = currentPlayer game_four_moves ∧
  result game_won = Some (Win X) ∧ status game_won = finished.
Proof.
  exact (makeMove_winner_is_mover (GameManager.objects session_started)
           game_four_moves game_won "socket1" 0 2 X eq_refl eq_refl eq_refl).
Defined.

(** ** More that holds in every reachable state *)

Lemma remove_first_subseteq (x y : string) (q : list string) :
  y ∈ remove_first x q → y ∈ q.
Proof.
  induction q as [|z q IH]; [done|]. simpl. case_bool_decide; set_solver.
Qed.

Lemma remove_first_NoDup (x : string) (q : list string) :
  NoDup q → NoDup (remove_first x q) ∧ x ∉ remove_first x q.
Proof.
  induction q as [|z q IH]; [by split; [constructor | set_solver]|].
  rewrite NoDup_cons. intros [Hz Hq]. simpl. case_bool_decide as E.
  - subst. done.
  - destruct (IH Hq) as [Hnd Hx]. split.
    + apply NoDup_cons. split; [|done]. intros Hin.
      by apply remove_first_subseteq in Hin.
    + set_solver.
Qed.

Lemma Coherent_empty (st : Store) : Coherent (GameManager.empty st).
Proof.
  split; simpl; try (intros ? ?; by rewrite lookup_empty).
  - constructor.
  - intros c Hc. by apply elem_of_nil in Hc.
Qed.

(** The queue may be replaced by any duplicate-free list of connections
    that have a room. *)
Lemma Coherent_set_queue (s : GameManager.State) (q : list string) :
  Coherent s → NoDup q →
  (∀ c, c ∈ q → is_Some (GameManager.playerRooms s !! c)) →
  Coherent (GameManager.set_queue s q).
Proof. intros [H1 H2 H3 H4 H5] Hq Hm. by split. Qed.

Lemma checkGameResult_empty :
  GameLogic.checkGameResult GameLogic.createEmptyBoard = None.
Proof. reflexivity. Qed.

Lemma Coherent_createRoom (s : GameManager.State) (p : ref) (roomId gameId : string) :
  Coherent s → Coherent (GameManager.createRoom s p roomId gameId).2.
Proof.
  intros [H1 H2 H3 H4 H5]. split; simpl; try done.
  - intros r room Hr. apply lookup_insert_Some in Hr as [[<- <-]|[_ Hr]]; [done|].
    by eapply H1.
  - intros r room Hr. apply lookup_insert_Some in Hr as [[<- <-]|[_ Hr]]; simpl.
    + split; [by rewrite checkGameResult_empty | done].
    + by eapply H2.
  - intros r room Hr. apply lookup_insert_Some in Hr as [[<- <-]|[_ Hr]]; simpl.
    + done.
    + by eapply H3.
  - intros c Hc. rewrite lookup_insert_is_Some'. right. by apply H5.
Qed.

(** Replacing a registered room by one with the same identifier, a
    game whose result and status agree with its board and which is not
    [waiting], while no connection loses its room. *)
Lemma Coherent_update_room (s : GameManager.State) (roomId : string)
    (room room' : GameRoom) (pr' : gmap string string) (st' : Store) :
  Coherent s →
  GameManager.rooms s !! roomId = Some room →
  room_id room' = room_id room →
  result (game room') = GameLogic.checkGameResult (board (game room')) →
  (status (game room') = finished ↔ result (game room') ≠ None) →
  status (game room') ≠ waiting →
  (∀ c, is_Some (GameManager.playerRooms s !! c) → is_Some (pr' !! c)) →
  Coherent {| GameManager.rooms := <[roomId := room']> (GameManager.rooms s);
              GameManager.playerRooms := pr';
              GameManager.matchmakingQueue := GameManager.matchmakingQueue s;
              GameManager.objects := st' |}.
Proof.
  intros [H1 H2 H3 H4 H5] Hroom Hid Hres Hst Hnw Hpr. split; simpl; try done.
  - intros r room0 Hr. apply lookup_insert_Some in Hr as [[<- <-]|[_ Hr]].
    + rewrite Hid. by eapply H1.
    + by eapply H1.
  - intros r room0 Hr. apply lookup_insert_Some in Hr as [[<- <-]|[_ Hr]].
    + done.
    + by eapply H2.
  - intros r room0 Hr. apply lookup_insert_Some in Hr as [[<- <-]|[_ Hr]].
    + done.
    + by eapply H3.
  - intros c Hc. by apply Hpr, H5.
Qed.

Lemma Coherent_joinRoom (s : GameManager.State) (roomId : string) (p : ref)
    (c : bool) (gameId : string) :
  Coherent s → Coherent (GameManager.joinRoom s roomId p c gameId).2.
Proof.
  intros Hcoh. unfold GameManager.joinRoom.
  destruct (GameManager.rooms s !! roomId) as [room|] eqn:Hroom; [|done].
  destruct (coh_result s Hcoh _ _ Hroom) as [Hres Hst].
  pose proof (coh_waiting s Hcoh _ _ Hroom) as Hwait.
  case_bool_decide as Hfull.
  - simpl. eapply Coherent_update_room; eauto.
    intros Hw. destruct (Hwait Hw) as [Hlen _]. lia.
  - destruct (players (game room) ++ [p]) as [|p1 [|p2 [|p3 ps]]] eqn:E; simpl;
      (eapply Coherent_update_room; eauto; simpl;
       first [ done
             | by split
             | by (intros ?; rewrite lookup_insert_is_Some'; right)
             | intros Hw; destruct (Hwait Hw) as [Hlen _];
               apply (f_equal length) in E; rewrite length_app in E;
               simpl in E; lia ]).
Qed.

Lemma Coherent_enqueueInNewRoom (s : GameManager.State) (p : ref)
    (roomId gameId : string) :
  Coherent s →
  player_id (GameManager.objects s p) ∉ GameManager.matchmakingQueue s →
  Coherent (GameManager.enqueueInNewRoom s p roomId gameId).2.
Proof.
  intros Hcoh Hnotin. unfold GameManager.enqueueInNewRoom.
  pose proof (Coherent_createRoom s p roomId gameId Hcoh) as Hc.
  destruct (GameManager.createRoom s p roomId gameId) as [rid s'] eqn:E.
  assert (Es : s' = (GameManager.createRoom s p roomId gameId).2) by (by rewrite E).
  simpl in Hc. apply Coherent_set_queue; [done | |].
  - rewrite Es. simpl. apply NoDup_app. split_and!.
    + by apply coh_queue.
    + intros x Hx Hx'. apply list_elem_of_singleton in Hx' as ->. done.
    + apply NoDup_singleton.
  - rewrite Es. simpl. intros c Hc'. rewrite lookup_insert_is_Some'.
    apply elem_of_app in Hc' as [Hc'|Hc'].
    + right. by apply (coh_queued s Hcoh).
    + apply list_elem_of_singleton in Hc' as ->. by left.
Qed.

Lemma Coherent_findMatch (s : GameManager.State) (p : ref) (c : bool)
    (roomId gameId : string) :
  Coherent s → Coherent (GameManager.findMatch s p c roomId gameId).2.
Proof.
  intros Hcoh. unfold GameManager.findMatch.
  set (me := player_id (GameManager.objects s p)).
  destruct (remove_first_NoDup me (GameManager.matchmakingQueue s)
              (coh_queue s Hcoh)) as [Hnd Hme].
  assert (Hsub : ∀ x, x ∈ remove_first me (GameManager.matchmakingQueue s) →
                      is_Some (GameManager.playerRooms s !! x)).
  { intros x Hx. apply (coh_queued s Hcoh). by eapply remove_first_subseteq. }
  simpl.
  destruct (remove_first me (GameManager.matchmakingQueue s)) as [|w rest] eqn:Hq.
  - apply Coherent_enqueueInNewRoom.
    + apply Coherent_set_queue; [done | constructor | set_solver].
    + simpl. set_solver.
  - apply NoDup_cons in Hnd as [Hw Hrest].
    set (s1 := GameManager.set_queue (GameManager.set_queue s (w :: rest)) rest).
    assert (Hs1 : Coherent s1).
    { apply Coherent_set_queue; [|done|].
      - apply Coherent_set_queue; [done | by apply NoDup_cons | done].
      - intros x Hx. apply Hsub. by right. }
    assert (Hnew : Coherent (GameManager.enqueueInNewRoom s1 p roomId gameId).2).
    { apply Coherent_enqueueInNewRoom; [done|]. simpl. fold me. set_solver. }
    destruct (GameManager.playerRooms s !! w) as [wr|]; [|done].
    case_bool_decide; [done|].
    destruct (GameManager.rooms s !! wr) as [room|] eqn:Hroom; [|done].
    case_bool_decide; [|done].
    pose proof (Coherent_joinRoom s1 wr p c gameId Hs1) as Hj.
    unfold GameManager.joinRoom in *. simpl in *. rewrite Hroom in *.
    case_bool_decide; [lia|]. simpl in *.
    by destruct (match players (game room) ++ [p] with
                 | [p1; p2] => _ | _ => _ end).
Qed.

Lemma Coherent_makeMove (db : DatabaseManager) (s : GameManager.State)
    (playerId : string) (row col : Z) :
  Coherent s → Coherent (GameManager.makeMove db s playerId row col).1.2.
Proof.
  intros Hcoh. rewrite makeMove_state.
  destruct (GameManager.playerRooms s !! playerId) as [roomId|]; [|done].
  case_bool_decide; [done|].
  destruct (GameManager.rooms s !! roomId) as [room|] eqn:Hroom; [|done].
  destruct (coh_result s Hcoh _ _ Hroom) as [Hres Hst].
  destruct (GameLogic.makeMove _ _ _ _ _) as [[e|] g'] eqn:E.
  - apply makeMove_refused in E as ->. simpl. by rewrite set_room_same.
  - apply makeMove_accepted in E as (r & Hplaying & _ & _ & _ & _ & _ & _ & Hafter).
    assert (Hnone : result (game room) = None).
    { destruct (result (game room)) as [v|] eqn:Ev; [|done].
      assert (status (game room) = finished) by (by apply Hst).
      congruence. }
    unfold GameManager.set_room. simpl.
    destruct (GameLogic.checkGameResult (board g')) as [v|] eqn:Ecr.
    + destruct Hafter as (_ & Hs & Hr).
      eapply Coherent_update_room; eauto; simpl; rewrite ?Hs, ?Hr, ?Ecr; done.
    + destruct Hafter as (_ & Hs & Hr).
      eapply Coherent_update_room; eauto; simpl;
        rewrite ?Hs, ?Hr, ?Hnone, ?Ecr; done.
Qed.

Lemma Coherent_handleRematch (s : GameManager.State) (playerId gameId : string) :
  Coherent s → Coherent (GameManager.handleRematch s playerId gameId).2.
Proof.
  intros Hcoh. unfold GameManager.handleRematch.
  destruct (GameManager.playerRooms s !! playerId) as [roomId|]; [|done].
  case_bool_decide; [done|].
  destruct (GameManager.rooms s !! roomId) as [room|] eqn:Hroom; [|done].
  case_bool_decide as Hfin; [done|].
  destruct (coh_result s Hcoh _ _ Hroom) as [Hres Hst].
  destruct (forallb _ _); simpl.
  - eapply Coherent_update_room; eauto; simpl; done.
  - eapply Coherent_update_room; eauto; simpl; rewrite ?Hfin; done.
Qed.

Lemma Coherent_leaveRoom (s : GameManager.State) (playerId : string) :
  Inv s → Coherent s → Coherent (GameManager.leaveRoom s playerId).2.
Proof.
  intros Hinv Hcoh. unfold GameManager.leaveRoom.
  destruct (GameManager.playerRooms s !! playerId) as [roomId|] eqn:Hmap; [|done].
  case_bool_decide as Hne; [done|].
  destruct (GameManager.rooms s !! roomId) as [room|] eqn:Hroom; [|done].
  destruct (inv_mapped s Hinv _ _ Hmap) as (_ & room0 & Hroom0 & Hin).
  rewrite Hroom in Hroom0. injection Hroom0 as <-.
  destruct Hcoh as [H1 H2 H3 H4 H5].
  set (players' := filter _ (players (game room))).
  set (spectators' := filter _ (spectators room)).
  set (room' := {| room_id := room_id room; game := _; spectators := spectators' |}).
  assert (Hlook : ∀ r room1,
    (if bool_decide (length players' = 0%nat) && bool_decide (length spectators' = 0%nat)
     then delete roomId (<[roomId := room']> (GameManager.rooms s))
     else <[roomId := room']> (GameManager.rooms s)) !! r = Some room1 →
    (r = roomId ∧ room1 = room' ∧
     ¬ (length players' = 0%nat ∧ length spectators' = 0%nat)) ∨
    (r ≠ roomId ∧ GameManager.rooms s !! r = Some room1)).
  { intros r room1. destruct (_ && _) eqn:Eb.
    - intros Hr. apply lookup_delete_Some in Hr as [Hrne Hr].
      rewrite lookup_insert_ne in Hr by done. by right.
    - intros Hr. apply lookup_insert_Some in Hr as [[<- <-]|[Hrne Hr]]; [|by right].
      left. split_and!; [done..|]. intros [E1 E2].
      by rewrite !bool_decide_eq_true_2 in Eb. }
  destruct (remove_first_NoDup playerId _ H4) as [Hnd Hme].
  split; simpl.
  - intros r room1 Hr. apply Hlook in Hr as [(-> & -> & _)|[_ Hr]]; [|by eapply H1].
    simpl. by eapply H1.
  - intros r room1 Hr. apply Hlook in Hr as [(-> & -> & _)|[_ Hr]]; [|by eapply H2].
    simpl. by eapply H2.
  - intros r room1 Hr. apply Hlook in Hr as [(-> & -> & Hnot)|[_ Hr]]; [|by eapply H3].
    simpl. intros Hw. exfalso. apply Hnot.
    destruct (H3 _ _ Hroom Hw) as (Hlen & Hsp & _).
    unfold spectators'. rewrite Hsp. split; [|done].
    unfold players'. unfold player_ids in Hin.
    destruct (players (game room)) as [|p0 [|]]; simplify_eq/=.
    apply list_elem_of_singleton in Hin.
    rewrite filter_cons, decide_False, filter_nil; [done|]. by intros ?.
  - done.
  - intros c Hc. rewrite lookup_delete_is_Some. split.
    + intros ->. done.
    + apply H5. by eapply remove_first_subseteq.
Qed.

Lemma Coherent_handle (s : GameManager.State) (rq : Request) :
  Inv s → Coherent s → Coherent (handle s rq).
Proof.
  intros Hinv Hcoh. destruct rq; simpl.
  - by apply Coherent_createRoom.
  - by apply Coherent_joinRoom.
  - by apply Coherent_findMatch.
  - by apply Coherent_makeMove.
  - by apply Coherent_handleRematch.
  - by apply Coherent_leaveRoom.
Qed.

Lemma reachable_Coherent (s : GameManager.State) : reachable s → Coherent s.
Proof.
  induction 1 as [st|s rq Hreach IH Hfresh].
  - apply Coherent_empty.
  - apply Coherent_handle; [by apply reachable_Inv | done].
Qed.

(** X6.  In every reachable state each registered room carries its own
    identifier, its board is 3x3, the recorded result is what
    [checkGameResult] says of the board, and the status is [finished]
    exactly when there is a result. *)
Theorem reachable_rooms_coherent (s : GameManager.State) :
  reachable s →
  ∀ roomId room, GameManager.getRoom s roomId = Some room →
    room_id room = roomId ∧
    board3x3 (board (game room)) ∧
    result (game room) = GameLogic.checkGameResult (board (game room)) ∧
    (status (game room) = finished ↔ result (game room) ≠ None).
Proof.
  intros Hreach roomId room Hroom. unfold GameManager.getRoom in Hroom.
  pose proof (reachable_Coherent s Hreach) as Hcoh.
  pose proof (reachable_Inv s Hreach) as Hinv.
  destruct (coh_result s Hcoh _ _ Hroom) as [Hres Hst].
  split_and!; [by eapply coh_key | by eapply inv_board | done | done].
Qed.

Lemma session_four_moves_reachable : reachable session_four_moves.
Proof.
  apply reachable_run; [exact session_started_reachable | vm_compute; repeat split; done].
Qed.

Lemma reachable_rooms_coherent_witness :
  reachable session_four_moves ∧
  result game_four_moves = GameLogic.checkGameResult (board game_four_moves).
Proof.
  split; [exact session_four_moves_reachable|].
  assert (Hroom : GameManager.getRoom session_four_moves "room-1"
                  = Some {| room_id := "room-1"; game := game_four_moves;
                            spectators := [] |})
    by (vm_compute; reflexivity).
  exact (proj1 (proj2 (proj2
           (reachable_rooms_coherent session_four_moves session_four_moves_reachable
              "room-1" {| room_id := "room-1"; game := game_four_moves;
                          spectators := [] |} Hroom)))).
Defined.

(** X7.  In every reachable state a room whose status is [waiting] has
    exactly one player, no spectator and an empty board. *)
Theorem reachable_waiting_room (s : GameManager.State) :
  reachable s →
  ∀ roomId room, GameManager.getRoom s roomId = Some room →
    status (game room) = waiting →
    (∃ p, players (game room) = [p]) ∧ spectators room = [] ∧
    board (game room) = GameLogic.createEmptyBoard ∧ result (game room) = None.
Proof.
  intros Hreach roomId room Hroom Hw. unfold GameManager.getRoom in Hroom.
  pose proof (reachable_Coherent s Hreach) as Hcoh.
  destruct (coh_waiting s Hcoh _ _ Hroom Hw) as (Hlen & Hsp & Hb).
  destruct (coh_result s Hcoh _ _ Hroom) as [Hres _].
  split_and!; [|done|done|by rewrite Hres, Hb].
  destruct (players (game room)) as [|p [|]]; simplify_eq/=. by exists p.
Qed.

Lemma session_queued_reachable : reachable session_queued.
Proof. reach. Qed.

Lemma reachable_waiting_room_witness :
  reachable session_queued ∧
  ((∃ p, players (game (waiting_room "room-1" "game-1" 0%nat)) = [p]) ∧
   spectators (waiting_room "room-1" "game-1" 0%nat) = [] ∧
   board (game (waiting_room "room-1" "game-1" 0%nat)) = GameLogic.createEmptyBoard ∧
   result (game (waiting_room "room-1" "game-1" 0%nat)) = None).
Proof.
  split; [exact session_queued_reachable|].
  exact (reachable_waiting_room session_queued session_queued_reachable
           "room-1" (waiting_room "room-1" "game-1" 0%nat) eq_refl eq_refl).
Defined.

(** X8.  In every reachable state no connection is in the matchmaking
    queue twice, and every queued connection is mapped by [playerRooms]
    to a registered room that has it among its players. *)
Theorem reachable_queue (s : GameManager.State) :
  reachable s →
  NoDup (GameManager.matchmakingQueue s) ∧
  ∀ c, c ∈ GameManager.matchmakingQueue s →
    ∃ room, GameManager.getRoomByPlayer s c = Some room ∧
            c ∈ player_ids (GameManager.objects s) room.
Proof.
  intros Hreach.
  pose proof (reachable_Coherent s Hreach) as Hcoh.
  pose proof (reachable_Inv s Hreach) as Hinv.
  split; [by apply coh_queue|]. intros c Hc.
  destruct (coh_queued s Hcoh c Hc) as [roomId Hmap].
  destruct (inv_mapped s Hinv _ _ Hmap) as (Hne & room & Hroom & Hin).
  exists room. split; [|done]. unfold GameManager.getRoomByPlayer.
  by rewrite Hmap, bool_decide_eq_false_2.
Qed.

Lemma reachable_queue_witness :
  reachable session_abandoned ∧ NoDup (GameManager.matchmakingQueue session_abandoned).
Proof.
  split; [exact session_abandoned_reachable|].
  exact (proj1 (reachable_queue session_abandoned session_abandoned_reachable)).
Defined.

(** X9.  In every reachable state [findMatch] never pairs a connection
    with itself: when it reports a match, the room holds the waiter that
    was at the head of the queue and then the caller, their connection
    identifiers differ, and the game is [playing]. *)
Theorem findMatch_pairs_two_connections (s : GameManager.State) (p : ref)
    (c : bool) (roomId gameId : string) (room' : GameRoom) :
  reachable s →
  (GameManager.findMatch s p c roomId gameId).1 = Some room' →
  let st := GameManager.objects s in
  ∃ w rest,
    remove_first (player_id (st p)) (GameManager.matchmakingQueue s)
      = player_id (st w) :: rest ∧
    players (game room') = [w; p] ∧
    player_id (st w) ≠ player_id (st p) ∧
    status (game room') = playing ∧
    GameManager.matchmakingQueue (GameManager.findMatch s p c roomId gameId).2 = rest.
Proof.
  intros Hreach Hmatched. simpl.
  pose proof (reachable_Coherent s Hreach) as Hcoh.
  pose proof (reachable_Inv s Hreach) as Hinv.
  set (me := player_id (GameManager.objects s p)) in *.
  destruct (remove_first_NoDup me _ (coh_queue s Hcoh)) as [_ Hme].
  destruct (remove_first me (GameManager.matchmakingQueue s)) as [|w rest] eqn:Hq.
  { destruct (findMatch_empty s p c roomId gameId Hq) as [[Hnone _] _]. congruence. }
  assert (Hfall : ¬ owns_single_player_room s w → False).
  { intros Hnot.
    destruct (findMatch_head_falls_back s p c roomId gameId w rest Hq Hnot)
      as [Hnone _]. congruence. }
  destruct (GameManager.playerRooms s !! w) as [wr|] eqn:Hmap;
    [|destruct Hfall; intros (? & ? & ? & _); congruence].
  destruct (inv_mapped s Hinv _ _ Hmap) as (Hne & room & Hroom & Hin).
  destruct (decide (length (players (game room)) = 1%nat)) as [Hlen|Hlen];
    [|destruct Hfall; intros (? & ? & ? & _ & ? & ?); congruence].
  destruct (findMatch_head_joins s p c roomId gameId w wr rest room Hq Hmap Hne Hroom Hlen)
    as (room1 & H1 & _ & _ & Hplayers & Hst & Hrest & _).
  assert (room1 = room') as -> by congruence.
  unfold player_ids in Hin.
  destruct (players (game room)) as [|p0 [|]]; try discriminate Hlen.
  simpl in Hin, Hplayers. apply list_elem_of_singleton in Hin.
  exists p0, rest. split_and!; try done.
  - by rewrite <- Hin.
  - rewrite <- Hin. fold me. set_solver.
Qed.

Lemma findMatch_pairs_two_connections_witness :
  reachable session_queued ∧
  ∃ w rest,
    remove_first (player_id (GameManager.objects session_queued 1%nat))
                 (GameManager.matchmakingQueue session_queued)
      = player_id (GameManager.objects session_queued w) :: rest ∧
    players (game room_matched) = [w; 1%nat] ∧
    player_id (GameManager.objects session_queued w)
      ≠ player_id (GameManager.objects session_queued 1%nat) ∧
    status (game room_matched) = playing ∧
    GameManager.matchmakingQueue
      (GameManager.findMatch session_queued 1%nat true "room-2" "game-2").2 = rest.
Proof.
  split; [exact session_queued_reachable|].
  assert (Hmatched :
    (GameManager.findMatch session_queued 1%nat true "room-2" "game-2").1
    = Some room_matched) by (vm_compute; reflexivity).
  exact (findMatch_pairs_two_connections session_queued 1%nat true "room-2" "game-2"
           room_matched session_queued_reachable Hmatched).
Defined.

(** ** Starting and restarting a game *)

(** X10.  When a different [Player] object joins a room that has one
    player, the call succeeds and starts a game: the players are the
    first one then the joiner, the status is [playing], the board is
    empty, ['X'] moves first, the two hold different marks as the coin
    decides, every other object is untouched, and the joiner is mapped
    to the room. *)
Theorem joinRoom_starts_game (s : GameManager.State) (roomId : string)
    (room : GameRoom) (p0 p : ref) (c : bool) (gameId : string) :
  GameManager.rooms s !! roomId = Some room →
  players (game room) = [p0] →
  p ≠ p0 →
  let r := GameManager.joinRoom s roomId p c gameId in
  let st := GameManager.objects s in
  let st' := GameManager.objects r.2 in
  let room' :=
    {| room_id := room_id room;
       game := {| game_id := gameId; players := [p0; p];
                  board := GameLogic.createEmptyBoard;
                  currentPlayer := X; status := playing; result := None |};
       spectators := spectators room |} in
  r.1 = GameManager.Success room' ∧
  GameManager.getRoom r.2 roomId = Some room' ∧
  GameManager.playerRooms r.2 !! player_id (st p) = Some roomId ∧
  symbol (st' p0) = (if c then X else O) ∧
  symbol (st' p) = (if c then O else X) ∧
  symbol (st' p0) ≠ symbol (st' p) ∧
  (∀ q, q ≠ p0 → q ≠ p → st' q = st q).
Proof.
  intros Hroom Hp Hne. simpl. unfold GameManager.joinRoom, GameManager.getRoom.
  rewrite Hroom, Hp. simpl.
  split_and!; try done.
  - by rewrite lookup_insert_eq.
  - by rewrite lookup_insert_eq.
  - rewrite fn_lookup_insert_ne, fn_lookup_insert by done. done.
  - rewrite fn_lookup_insert. done.
  - rewrite fn_lookup_insert_ne, !fn_lookup_insert by done. simpl.
    by destruct c.
  - intros q Hq0 Hq. by rewrite !fn_lookup_insert_ne by done.
Qed.

Lemma joinRoom_starts_game_witness :
  (GameManager.joinRoom session_waiting "room-1" 1%nat true "game-2").1
    = GameManager.Success room_matched.
Proof.
  exact (proj1 (joinRoom_starts_game session_waiting "room-1"
                  (waiting_room "room-1" "game-1" 0%nat) 0%nat 1%nat true "game-2"
                  eq_refl eq_refl ltac:(discriminate))).
Defined.

Lemma foldl_swap_outside (ps : list ref) (st : Store) (r : ref) :
  r ∉ ps → foldl GameLogic.swap_and_clear st ps r = st r.
Proof.
  revert st. induction ps as [|q ps IH]; intros st Hr; [done|]. simpl.
  rewrite IH by set_solver. unfold GameLogic.swap_and_clear.
  rewrite fn_lookup_insert_ne; [done | set_solver].
Qed.

Lemma foldl_swap_inside (ps : list ref) (st : Store) (r : ref) :
  NoDup ps → r ∈ ps →
  foldl GameLogic.swap_and_clear st ps r
  = set_isReady (set_symbol (st r) (other (symbol (st r)))) false.
Proof.
  revert st. induction ps as [|q ps IH]; intros st Hnd Hr;
    [by apply elem_of_nil in Hr|].
  apply NoDup_cons in Hnd as [Hq Hnd]. simpl.
  apply elem_of_cons in Hr as [->|Hr].
  - rewrite foldl_swap_outside by done. unfold GameLogic.swap_and_clear.
    by rewrite fn_lookup_insert.
  - rewrite IH by done. unfold GameLogic.swap_and_clear.
    rewrite fn_lookup_insert_ne; [done|]. intros ->. done.
Qed.

(** X11.  [resetGame] on a game whose player list has no object twice:
    every player's mark is flipped and its [isReady] cleared, its
    identity is kept, objects outside the game are untouched, the player
    list is kept, and a second [resetGame] gives every object its
    original mark and the game its original [currentPlayer]. *)
Theorem resetGame_flips_each_player (st : Store) (g : GameState) (u1 u2 : string) :
  NoDup (players g) →
  let r1 := GameLogic.resetGame st g u1 in
  let r2 := GameLogic.resetGame r1.1 r1.2 u2 in
  (∀ r, r ∈ players g →
        symbol (r1.1 r) = other (symbol (st r)) ∧ isReady (r1.1 r) = false ∧
        player_id (r1.1 r) = player_id (st r) ∧
        telegramId (r1.1 r) = telegramId (st r)) ∧
  (∀ r, r ∉ players g → r1.1 r = st r) ∧
  players r1.2 = players g ∧
  currentPlayer r1.2 = other (currentPlayer g) ∧
  (∀ r, symbol (r2.1 r) = symbol (st r)) ∧
  currentPlayer r2.2 = currentPlayer g.
Proof.
  intros Hnd. simpl. split_and!; try done.
  - intros r Hr. by rewrite foldl_swap_inside.
  - intros r Hr. by apply foldl_swap_outside.
  - intros r. destruct (decide (r ∈ players g)) as [Hr|Hr].
    + rewrite !foldl_swap_inside by done. simpl. by destruct (symbol (st r)).
    + by rewrite !foldl_swap_outside.
  - by destruct (currentPlayer g).
Qed.

Lemma resetGame_flips_each_player_witness :
  NoDup (players game_won) ∧
  symbol ((GameLogic.resetGame
             (GameLogic.resetGame (GameManager.objects session_won) game_won
                "game-3").1
             (GameLogic.resetGame (GameManager.objects session_won) game_won
                "game-3").2 "game-4").1 0%nat)
  = symbol (GameManager.objects session_won 0%nat).
Proof.
  assert (Hnd : NoDup (players game_won))
    by exact (bool_decide_eq_true_1 (NoDup (players game_won)) eq_refl).
  split; [exact Hnd|].
  exact (proj1 (proj2 (proj2 (proj2 (proj2
           (resetGame_flips_each_player (GameManager.objects session_won) game_won
              "game-3" "game-4" Hnd))))) 0%nat).
Defined.

(** ** Creating and leaving *)

(** X12.  Creating a room under a new identifier and leaving it at once
    gives back the rooms there were: the room is deleted, the caller has
    no room any more and is out of the queue, and nothing else changed. *)
Theorem createRoom_then_leaveRoom (s : GameManager.State) (p : ref)
    (roomId gameId : string) :
  fresh_roomId s roomId →
  let me := player_id (GameManager.objects s p) in
  let r := GameManager.leaveRoom (GameManager.createRoom s p roomId gameId).2 me in
  r.1 = Some roomId ∧
  GameManager.rooms r.2 = GameManager.rooms s ∧
  GameManager.playerRooms r.2 = delete me (GameManager.playerRooms s) ∧
  GameManager.matchmakingQueue r.2 = remove_first me (GameManager.matchmakingQueue s) ∧
  GameManager.objects r.2 = GameManager.objects s.
Proof.
  intros [Hne Hfresh]. simpl. unfold GameManager.leaveRoom. simpl.
  rewrite !lookup_insert_eq, bool_decide_eq_false_2 by done. simpl.
  rewrite filter_cons, decide_False, filter_nil by (by intros ?). simpl.
  split_and!; try done.
  - by rewrite insert_insert_eq, delete_insert_eq, delete_id.
  - by rewrite delete_insert_eq.
Qed.

Lemma createRoom_then_leaveRoom_witness :
  (GameManager.leaveRoom
     (GameManager.createRoom session_started 2%nat "room-2" "game-3").2
     "socket3").1 = Some "room-2".
Proof.
  refine (proj1 (createRoom_then_leaveRoom session_started 2%nat "room-2" "game-3" _)).
  split; [discriminate | vm_compute; reflexivity].
Defined.

(** ** A rematch that has to wait *)

(** X13.  [handleRematch] by a connection whose room holds a finished
    game, while some player with another connection is not ready:
    the call succeeds, the game stays exactly as it is (still finished,
    same board and result), and the only change is the caller's own
    [isReady] flag, if the caller is one of the players. *)
Theorem handleRematch_waits (s : GameManager.State) (playerId gameId roomId : string)
    (room : GameRoom) (q : ref) :
  let st := GameManager.objects s in
  GameManager.playerRooms s !! playerId = Some roomId → roomId ≠ "" →
  GameManager.rooms s !! roomId = Some room →
  status (game room) = finished →
  q ∈ players (game room) → player_id (st q) ≠ playerId → isReady (st q) = false →
  let r := GameManager.handleRematch s playerId gameId in
  let st' := GameManager.objects r.2 in
  r.1 = GameManager.Success room ∧
  GameManager.rooms r.2 = GameManager.rooms s ∧
  GameManager.playerRooms r.2 = GameManager.playerRooms s ∧
  (∀ me, find_player st (players (game room)) playerId = Some me →
         st' me = set_isReady (st me) true ∧ ∀ r0, r0 ≠ me → st' r0 = st r0) ∧
  (find_player st (players (game room)) playerId = None → st' = st).
Proof.
  intros st Hmap Hne Hroom Hfin Hq Hqid Hqready. simpl.
  unfold GameManager.handleRematch.
  rewrite Hmap, bool_decide_eq_false_2, Hroom by done.
  rewrite bool_decide_eq_false_2 by (by rewrite Hfin; intros ?). fold st.
  set (st1 := match find_player st (players (game room)) playerId with
              | Some r => GameManager.mark_ready st r | None => st end).
  assert (Hq1 : isReady (st1 q) = false).
  { unfold st1. destruct (find_player _ _ _) as [me|] eqn:Hfind; [|done].
    apply find_player_Some in Hfind as [_ Hme].
    unfold GameManager.mark_ready. rewrite fn_lookup_insert_ne; [done|].
    intros ->. done. }
  assert (Hall : forallb (λ r, isReady (st1 r)) (players (game room)) = false).
  { apply not_true_iff_false. rewrite <- Is_true_true, forallb_True, Forall_forall.
    intros H. specialize (H q Hq). rewrite Hq1 in H. done. }
  rewrite Hall. simpl.
  assert (Eroom : GameManager.with_game room (game room) = room) by (by destruct room).
  rewrite Eroom. split_and!; try done.
  - by apply insert_id.
  - intros me Hfind. unfold st1. rewrite Hfind. unfold GameManager.mark_ready.
    split; [by rewrite fn_lookup_insert|].
    intros r0 Hr0. by rewrite fn_lookup_insert_ne.
  - intros Hfind. unfold st1. by rewrite Hfind.
Qed.

Lemma handleRematch_waits_witness :
  (GameManager.handleRematch session_won "socket1" "game-3").1
    = GameManager.Success
        {| room_id := "room-1"; game := game_won; spectators := [] |}.
Proof.
  assert (Hmap : GameManager.playerRooms session_won !! "socket1" = Some "room-1")
    by (vm_compute; reflexivity).
  assert (Hroom : GameManager.rooms session_won !! "room-1"
                  = Some {| room_id := "room-1"; game := game_won; spectators := [] |})
    by (vm_compute; reflexivity).
  assert (Hid : player_id (GameManager.objects session_won 1%nat) ≠ "socket1")
    by (vm_compute; discriminate).
  assert (Hready : isReady (GameManager.objects session_won 1%nat) = false)
    by (vm_compute; reflexivity).
  exact (proj1 (handleRematch_waits session_won "socket1" "game-3" "room-1"
                  {| room_id := "room-1"; game := game_won; spectators := [] |}
                  1%nat Hmap ltac:(discriminate) Hroom eq_refl
                  (bool_decide_eq_true_1 (1%nat ∈ players game_won) eq_refl)
                  Hid Hready)).
Defined.

Lemma leaveRoom_mapped_witness :
  (GameManager.leaveRoom session_started "socket2").1 = Some "room-1" ∧
  GameManager.playerRooms (GameManager.leaveRoom session_started "socket2").2
    !! "socket2" = None.
Proof.
  destruct (leaveRoom_mapped session_started "socket2" "room-1" room_matched
              eq_refl ltac:(discriminate) eq_refl) as (H1 & H2 & _).
  by split.
Defined.

Lemma handleRematch_both_ready_witness :
  ∃ room',
    (GameManager.handleRematch session_rematch_asked "socket2" "game-3").1
      = GameManager.Success room' ∧
    currentPlayer (game room') = other (currentPlayer game_won) ∧
    status (game room') = playing.
Proof.
  assert (Hmap : GameManager.playerRooms session_rematch_asked !! "socket2"
                 = Some "room-1") by (vm_compute; reflexivity).
  assert (Hroom : GameManager.rooms session_rematch_asked !! "room-1"
                  = Some {| room_id := "room-1"; game := game_won; spectators := [] |})
    by (vm_compute; reflexivity).
  assert (Hids : player_id (GameManager.objects session_rematch_asked 0%nat)
                 ≠ player_id (GameManager.objects session_rematch_asked 1%nat))
    by (vm_compute; discriminate).
  assert (Hreq :
    "socket2" = player_id (GameManager.objects session_rematch_asked 0%nat)
    ∧ isReady (GameManager.objects session_rematch_asked 1%nat) = true
    ∨ "socket2" = player_id (GameManager.objects session_rematch_asked 1%nat)
      ∧ isReady (GameManager.objects session_rematch_asked 0%nat) = true)
    by (right; split; vm_compute; reflexivity).
  destruct (handleRematch_both_ready session_rematch_asked "socket2" "game-3" "room-1"
              {| room_id := "room-1"; game := game_won; spectators := [] |}
              0%nat 1%nat Hmap ltac:(discriminate) Hroom eq_refl eq_refl Hids Hreq)
    as (room' & H1 & _ & _ & _ & _ & _ & _ & H8 & _ & H10 & _).
  exists room'. by split_and!.
Defined.

(** ** What is sent to the sink *)

Lemma find_symbol_Some (st : Store) (ps : list ref) (keep : Mark → bool) (r : ref) :
  GameManager.find_symbol st ps keep = Some r →
  r ∈ ps ∧ keep (symbol (st r)) = true.
Proof.
  unfold GameManager.find_symbol. induction ps as [|q ps IH]; [done|]. simpl.
  destruct (keep (symbol (st q))) eqn:E.
  - intros [= <-]. split; [set_solver | done].
  - intros H. destruct (IH H). split; [set_solver | done].
Qed.

(** X16.  What [updatePlayerStats] sends to a sink that works.  For a
    won game: one "win" for the first player holding the winning mark,
    then one "loss" for the first player holding another mark; if no
    player holds the winning mark, or none holds another, nothing is
    sent.  For a draw between two players: "draw" for the first, then
    "draw" for the second.  Without a result: nothing.  The block always
    completes. *)
Theorem updatePlayerStats_calls (st : Store) (g : GameState) (tr : list Event) :
  let r := GameManager.updatePlayerStats st g sink_up tr in
  let winner m := GameManager.find_symbol st (players g) (λ sy, bool_decide (sy = m)) in
  let loser m := GameManager.find_symbol st (players g) (λ sy, bool_decide (sy ≠ m)) in
  r.2 = Some tt ∧
  (∀ m w l, result g = Some (Win m) → winner m = Some w → loser m = Some l →
     r.1 = tr ++ [ UpdatePlayerStats (telegramId (st w)) "win";
                   UpdatePlayerStats (telegramId (st l)) "loss" ] ∧
     symbol (st w) = m ∧ symbol (st l) ≠ m) ∧
  (∀ m, result g = Some (Win m) → winner m = None ∨ loser m = None → r.1 = tr) ∧
  (∀ p1 p2 rest, result g = Some Draw → players g = p1 :: p2 :: rest →
     r.1 = tr ++ [ UpdatePlayerStats (telegramId (st p1)) "draw";
                   UpdatePlayerStats (telegramId (st p2)) "draw" ]) ∧
  (result g = None → r.1 = tr).
Proof.
  simpl. split_and!.
  - unfold GameManager.updatePlayerStats.
    match goal with
    | |- context [try_catch ?body ?message] =>
        by destruct (try_catch_completes body message sink_up tr) as [tr' ->]
    end.
  - intros m w l Hres Hw Hl. unfold GameManager.updatePlayerStats.
    rewrite Hres, Hw, Hl. unfold try_catch, bind, await, sink_up. simpl.
    rewrite <- app_assoc. split; [done|].
    apply find_symbol_Some in Hw as [_ Hw], Hl as [_ Hl].
    apply bool_decide_eq_true in Hw, Hl. done.
  - intros m Hres Hmiss. unfold GameManager.updatePlayerStats. rewrite Hres.
    destruct Hmiss as [Hw | Hl].
    + by rewrite Hw.
    + rewrite Hl.
      destruct (GameManager.find_symbol st (players g) (λ sy, bool_decide (sy = m)));
        reflexivity.
  - intros p1 p2 rest Hres Hp. unfold GameManager.updatePlayerStats.
    rewrite Hres, Hp. unfold try_catch, bind, await, defined, ret, sink_up. simpl.
    by rewrite <- app_assoc.
  - intros Hres. unfold GameManager.updatePlayerStats. by rewrite Hres.
Qed.


(** ** The players table *)


Lemma valid_outcome (outcome : string) :
  bool_decide (outcome = "win") || bool_decide (outcome = "loss")
  || bool_decide (outcome = "draw") = true ↔
  outcome = "win" ∨ outcome = "loss" ∨ outcome = "draw".
Proof.
  rewrite !orb_true_iff, !bool_decide_eq_true. tauto.
Qed.



(** X19.  [updatePlayerStats] without an sqlite error, for "win", "loss"
    or "draw": the promise resolves; a registered player's row gets one
    more game and one more of that outcome, the other two counters and
    the name staying as they are; the rows of other players are
    untouched; for a player without a row nothing is recorded at all.
    For any other outcome the promise rejects and the table is as it
    was. *)
Theorem updatePlayerStats_counts (t : Database.Players) (telegramId : Z)
    (outcome : string) :
  let r := Database.updatePlayerStats t telegramId outcome false in
  (outcome = "win" ∨ outcome = "loss" ∨ outcome = "draw" →
   r.1 = Database.resolve tt ∧
   (∀ other, other ≠ telegramId → r.2 !! other = t !! other) ∧
   (t !! telegramId = None → r.2 = t) ∧
   (∀ row, t !! telegramId = Some row →
      ∃ row', r.2 !! telegramId = Some row' ∧
        Database.row_username row' = Database.row_username row ∧
        Database.row_total_games row' = Database.row_total_games row + 1 ∧
        Database.row_wins row'
          = Database.row_wins row + (if bool_decide (outcome = "win") then 1 else 0) ∧
        Database.row_losses row'
          = Database.row_losses row + (if bool_decide (outcome = "loss") then 1 else 0) ∧
        Database.row_draws row'
          = Database.row_draws row + (if bool_decide (outcome = "draw") then 1 else 0))) ∧
  (¬ (outcome = "win" ∨ outcome = "loss" ∨ outcome = "draw") →
   r = (Database.reject, t)).
Proof.
  simpl. unfold Database.updatePlayerStats. split.
  - intros Hv. rewrite (proj2 (valid_outcome outcome) Hv). simpl.
    split_and!; [done | | |].
    + intros other Hne. by rewrite lookup_alter_ne.
    + intros Hnone. apply map_eq. intros i.
      destruct (decide (telegramId = i)) as [<-|Hne].
      * by rewrite lookup_alter_eq, Hnone.
      * by rewrite lookup_alter_ne.
    + intros row Hrow. exists (Database.bump outcome row).
      rewrite lookup_alter_eq, Hrow. simpl.
      split_and!; try done; case_bool_decide; lia.
  - intros Hv. destruct (_ || _) eqn:E; [|done]. by apply valid_outcome in E.
Qed.

Lemma updatePlayerStats_counts_witness :
  (Database.updatePlayerStats table_two 999 "win" false).1 = Database.resolve tt ∧
  (Database.updatePlayerStats table_two 999 "win" false).2 = table_two.
Proof.
  destruct (proj1 (updatePlayerStats_counts table_two 999 "win") (or_introl eq_refl))
    as (H1 & _ & H3 & _).
  split; [exact H1 | exact (H3 eq_refl)].
Defined.

(** X20.  [getOrCreatePlayer] without an sqlite error resolves with the
    player's statistics; a following [getPlayerStats] resolves with the
    same statistics, and a second [getOrCreatePlayer], under any name,
    resolves with them again and changes nothing.  A player already
    registered keeps its row: the counters are never reset.  A new player
    starts at zero.  Other rows are untouched. *)
Theorem getOrCreatePlayer_idempotent (t : Database.Players) (telegramId : Z)
    (name name' : string) :
  let r := Database.getOrCreatePlayer t telegramId name false false in
  ∃ stats,
    r.1 = Database.resolve stats ∧
    Database.stats_telegramId stats = telegramId ∧
    Database.getPlayerStats r.2 telegramId false = (Database.resolve (Some stats), r.2) ∧
    Database.getOrCreatePlayer r.2 telegramId name' false false
      = (Database.resolve stats, r.2) ∧
    (is_Some (t !! telegramId) → r.2 = t) ∧
    (t !! telegramId = None →
       Database.wins stats = 0 ∧ Database.losses stats = 0 ∧
       Database.draws stats = 0 ∧ Database.totalGames stats = 0) ∧
    (∀ other, other ≠ telegramId → r.2 !! other = t !! other).
Proof.
  simpl. unfold Database.getOrCreatePlayer, Database.getPlayerStats.
  destruct (t !! telegramId) as [row|] eqn:E; simpl.
  - exists (Database.stats_of telegramId row). rewrite E. simpl.
    split_and!; done.
  - eexists. rewrite lookup_insert_eq. simpl.
    split_and!; try done;
      first [ by intros [? [=]]
            | intros other Hne; by rewrite lookup_insert_ne ].
Qed.

(** ** From a winning move to the players table *)




(** ** Every reachable board is a position of a game played in turns *)

Section EveryGame.
Context (Q : GameBoard → Mark → GameStatus → Prop).
Hypothesis Q_empty : ∀ turn st, Q GameLogic.createEmptyBoard turn st.
Hypothesis Q_move : ∀ (st : Store) (g g' : GameState) playerId row col,
  GameLogic.makeMove st g playerId row col = (None, g') →
  GameLogic.checkGameResult (board g) = None →
  Q (board g) (currentPlayer g) (status g) →
  Q (board g') (currentPlayer g') (status g').

Lemma every_game_update (s : GameManager.State) (roomId : string) (room' : GameRoom)
    (pr : gmap string string) (q : list string) (st : Store) :
  every_game Q s →
  Q (board (game room')) (currentPlayer (game room')) (status (game room')) →
  every_game Q {| GameManager.rooms := <[roomId := room']> (GameManager.rooms s);
                  GameManager.playerRooms := pr;
                  GameManager.matchmakingQueue := q;
                  GameManager.objects := st |}.
Proof.
  intros Hs Hroom r room1 Hr. simpl in Hr.
  apply lookup_insert_Some in Hr as [[_ <-]|[_ Hr]]; [done | by eapply Hs].
Qed.

Lemma every_game_createRoom (s : GameManager.State) (p : ref) (roomId gameId : string) :
  every_game Q s → every_game Q (GameManager.createRoom s p roomId gameId).2.
Proof. intros Hs. by apply every_game_update. Qed.

Lemma every_game_joinRoom (s : GameManager.State) (roomId : string) (p : ref)
    (c : bool) (gameId : string) :
  every_game Q s → every_game Q (GameManager.joinRoom s roomId p c gameId).2.
Proof.
  intros Hs. unfold GameManager.joinRoom.
  destruct (GameManager.rooms s !! roomId) as [room|] eqn:Hroom; [|done].
  specialize (Hs _ _ Hroom) as Hq.
  case_bool_decide; [by apply every_game_update|].
  destruct (players (game room) ++ [p]) as [|p1 [|p2 [|p3 ps]]]; simpl;
    by apply every_game_update.
Qed.

Lemma every_game_findMatch (s : GameManager.State) (p : ref) (c : bool)
    (roomId gameId : string) :
  every_game Q s → every_game Q (GameManager.findMatch s p c roomId gameId).2.
Proof.
  intros Hs. unfold GameManager.findMatch. simpl.
  assert (Hnew : ∀ s' : GameManager.State, every_game Q s' →
            every_game Q (GameManager.enqueueInNewRoom s' p roomId gameId).2).
  { intros s' Hs'. unfold GameManager.enqueueInNewRoom. simpl.
    by apply every_game_update. }
  destruct (remove_first _ _) as [|w rest]; [by apply Hnew|].
  set (s1 := GameManager.set_queue (GameManager.set_queue s (w :: rest)) rest).
  assert (Hs1 : every_game Q s1) by done.
  destruct (GameManager.playerRooms s !! w) as [wr|]; [|by apply Hnew].
  case_bool_decide; [by apply Hnew|].
  destruct (GameManager.rooms s !! wr) as [room|] eqn:Hroom; [|by apply Hnew].
  case_bool_decide; [|by apply Hnew].
  pose proof (every_game_joinRoom s1 wr p c gameId Hs1) as Hj.
  unfold GameManager.joinRoom in *. simpl in *. rewrite Hroom in *.
  case_bool_decide; [lia|]. simpl in *.
  by destruct (match players (game room) ++ [p] with
               | [p1; p2] => _ | _ => _ end).
Qed.

Lemma every_game_makeMove (db : DatabaseManager) (s : GameManager.State)
    (playerId : string) (row col : Z) :
  Coherent s → every_game Q s →
  every_game Q (GameManager.makeMove db s playerId row col).1.2.
Proof.
  intros Hcoh Hs. rewrite makeMove_state.
  destruct (GameManager.playerRooms s !! playerId) as [roomId|]; [|done].
  case_bool_decide; [done|].
  destruct (GameManager.rooms s !! roomId) as [room|] eqn:Hroom; [|done].
  destruct (GameLogic.makeMove _ _ _ _ _) as [[e|] g'] eqn:E.
  - apply makeMove_refused in E as ->. simpl. by rewrite set_room_same.
  - apply every_game_update; [done|]. simpl.
    eapply Q_move; [done | | by eapply Hs].
    destruct (coh_result s Hcoh _ _ Hroom) as [Hres Hst].
    apply makeMove_accepted in E as (_ & Hplaying & _).
    rewrite <- Hres. destruct (result (game room)) as [v|] eqn:Ev; [|done].
    assert (status (game room) = finished) by (by apply Hst). congruence.
Qed.

Lemma every_game_handleRematch (s : GameManager.State) (playerId gameId : string) :
  every_game Q s → every_game Q (GameManager.handleRematch s playerId gameId).2.
Proof.
  intros Hs. unfold GameManager.handleRematch.
  destruct (GameManager.playerRooms s !! playerId) as [roomId|]; [|done].
  case_bool_decide; [done|].
  destruct (GameManager.rooms s !! roomId) as [room|] eqn:Hroom; [|done].
  case_bool_decide; [done|].
  destruct (forallb _ _); simpl; apply every_game_update; try done.
  simpl. by eapply Hs.
Qed.

Lemma every_game_leaveRoom (s : GameManager.State) (playerId : string) :
  every_game Q s → every_game Q (GameManager.leaveRoom s playerId).2.
Proof.
  intros Hs. unfold GameManager.leaveRoom.
  destruct (GameManager.playerRooms s !! playerId) as [roomId|]; [|done].
  case_bool_decide; [done|].
  destruct (GameManager.rooms s !! roomId) as [room|] eqn:Hroom; [|done].
  intros r room1 Hr. simpl in Hr.
  assert (Hr' : <[roomId := {| room_id := room_id room;
        game := {| game_id := game_id (game room);
                   players := filter (λ r0, player_id (GameManager.objects s r0) ≠ playerId)
                                     (players (game room));
                   board := board (game room);
                   currentPlayer := currentPlayer (game room);
                   status := status (game room); result := result (game room) |};
        spectators := filter (λ sid, sid ≠ playerId) (spectators room) |}]>
      (GameManager.rooms s) !! r = Some room1).
  { destruct (_ && _); [by apply lookup_delete_Some in Hr as [_ Hr] | done]. }
  apply lookup_insert_Some in Hr' as [[_ <-]|[_ Hr']]; simpl; by eapply Hs.
Qed.

Lemma reachable_every_game (s : GameManager.State) :
  reachable s → every_game Q s.
Proof.
  induction 1 as [st|s rq Hreach IH Hfresh].
  - intros r room Hr. simpl in Hr. by rewrite lookup_empty in Hr.
  - destruct rq; simpl.
    + by apply every_game_createRoom.
    + by apply every_game_joinRoom.
    + by apply every_game_findMatch.
    + apply every_game_makeMove; [by apply reachable_Coherent | done].
    + by apply every_game_handleRematch.
    + by apply every_game_leaveRoom.
Qed.
End EveryGame.

(** After an accepted move on a board that had no result, every complete
    line holds the mark that moved. *)
Lemma complete_after_move (st : Store) (g g' : GameState) (playerId : string)
    (row col : Z) (l : Line) (m : Mark) :
  GameLogic.makeMove st g playerId row col = (None, g') →
  GameLogic.checkGameResult (board g) = None →
  l ∈ lines → complete (board g') l m → m = currentPlayer g.
Proof.
  intros H Hbefore Hin Hl.
  pose proof (makeMove_cells st g g' playerId row col H)
    as (_ & _ & _ & Htarget & Hothers & _).
  rewrite checkGameResult_scan in Hbefore.
  destruct (scan (line_mark (board g)) lines) eqn:Enone; [done|].
  rewrite scan_None, Forall_forall in Enone.
  specialize (Enone l Hin). rewrite line_mark_None in Enone.
  destruct l as [[p1 p2] p3]. destruct Hl as (H1 & H2 & H3).
  set (target := (Z.to_nat row, Z.to_nat col)) in *.
  assert (Hhit : ∀ p : Position, p = target →
            cellAt (board g') p.1 p.2 = Some (Some m) → m = currentPlayer g).
  { intros p -> Hp. simpl in Hp. congruence. }
  destruct (decide (p1 = target)) as [E1|N1]; [by eapply Hhit|].
  destruct (decide (p2 = target)) as [E2|N2]; [by eapply Hhit|].
  destruct (decide (p3 = target)) as [E3|N3]; [by eapply Hhit|].
  destruct (Enone m). split_and!.
  - rewrite <- (Hothers p1.1 p1.2); [done | by destruct p1].
  - rewrite <- (Hothers p2.1 p2.2); [done | by destruct p2].
  - rewrite <- (Hothers p3.1 p3.2); [done | by destruct p3].
Qed.

Lemma no_line_on_empty_board (l : Line) (m : Mark) :
  l ∈ lines → ¬ complete GameLogic.createEmptyBoard l m.
Proof.
  unfold lines. intros Hin.
  repeat (apply elem_of_cons in Hin as [->|Hin]; [by intros ([=] & _)|]).
  by apply elem_of_nil in Hin.
Qed.

Lemma reachable_one_winner (s : GameManager.State) :
  reachable s → every_game one_winner s.
Proof.
  apply reachable_every_game.
  - intros turn st l l' m m' Hl _ Hc _. by apply no_line_on_empty_board in Hc.
  - intros st g g' playerId row col Hmove Hbefore _ l l' m m' Hl Hl' Hc Hc'.
    rewrite (complete_after_move st g g' playerId row col l m) by done.
    by rewrite (complete_after_move st g g' playerId row col l' m').
Qed.

(** X22.  In every reachable state a complete line on a board decides
    the game: the recorded result is a win for the mark of that line and
    the status is [finished].  So all complete lines of a board hold the
    same mark, and the order in which [checkGameResult] scans them never
    changes a result. *)
Theorem reachable_complete_line_wins (s : GameManager.State) :
  reachable s →
  ∀ roomId room l m, GameManager.getRoom s roomId = Some room →
    l ∈ lines → complete (board (game room)) l m →
    result (game room) = Some (Win m) ∧ status (game room) = finished.
Proof.
  intros Hreach roomId room l m Hroom Hl Hc. unfold GameManager.getRoom in Hroom.
  destruct (coh_result s (reachable_Coherent s Hreach) _ _ Hroom) as [Hres Hst].
  pose proof (reachable_one_winner s Hreach _ _ Hroom) as Hone.
  assert (Hwin : result (game room) = Some (Win m)).
  { rewrite Hres, checkGameResult_scan.
    destruct (scan (line_mark (board (game room))) lines) as [m'|] eqn:E.
    - apply scan_Some in E as (before & l' & after & El & Hl' & _).
      apply line_mark_Some in Hl'.
      assert (l' ∈ lines) by (rewrite El; set_solver).
      by rewrite (Hone l l' m m').
    - rewrite scan_None, Forall_forall in E. specialize (E l Hl).
      rewrite line_mark_None in E. by destruct (E m). }
  split; [done|]. apply Hst. by rewrite Hwin.
Qed.

Lemma session_won_reachable : reachable session_won.
Proof.
  apply reachable_run; [exact session_four_moves_reachable
                       | vm_compute; repeat split; done].
Qed.

Lemma reachable_complete_line_wins_witness :
  reachable session_won ∧
  result game_won = Some (Win X) ∧ status game_won = finished.
Proof.
  split; [exact session_won_reachable|].
  assert (Hroom : GameManager.getRoom session_won "room-1"
                  = Some {| room_id := "room-1"; game := game_won; spectators := [] |})
    by (vm_compute; reflexivity).
  refine (reachable_complete_line_wins session_won session_won_reachable
            "room-1" {| room_id := "room-1"; game := game_won; spectators := [] |}
            ((0, 0), (0, 1), (0, 2))%nat X Hroom _ _).
  - exact (bool_decide_eq_true_1 (((0, 0), (0, 1), (0, 2))%nat ∈ lines) eq_refl).
  - by split_and!.
Defined.

Lemma count_mark_empty (m : Mark) : count_mark GameLogic.createEmptyBoard m = 0%nat.
Proof. by destruct m. Qed.

(** An accepted move adds one cell to the mark that moved and none to the
    other. *)
Lemma count_mark_after_move (st : Store) (g g' : GameState) (playerId : string)
    (row col : Z) :
  GameLogic.makeMove st g playerId row col = (None, g') →
  count_mark (board g') (currentPlayer g) = S (count_mark (board g) (currentPlayer g)) ∧
  count_mark (board g') (other (currentPlayer g))
  = count_mark (board g) (other (currentPlayer g)).
Proof.
  intros H.
  pose proof (makeMove_cells st g g' playerId row col H)
    as (Hr & Hc & Hwas & Htarget & Hothers & _).
  set (target := (Z.to_nat row, Z.to_nat col)) in *.
  assert (Hin : target ∈ positions) by (apply elem_of_positions; simpl; lia).
  unfold count_mark. split.
  - apply (length_filter_one_more _ _ positions target); try done.
    + apply positions_NoDup.
    + simpl. by rewrite Hwas.
    + intros [r c] Hne. simpl. by rewrite Hothers.
  - apply length_filter_agree. intros [r c] _. simpl.
    destruct (decide ((r, c) = target)) as [[= -> ->]|Hne].
    + rewrite Htarget, Hwas. split; [|done]. intros [= E].
      by destruct (currentPlayer g).
    + by rewrite Hothers.
Qed.

Lemma reachable_in_turns (s : GameManager.State) :
  reachable s → every_game in_turns s.
Proof.
  apply reachable_every_game.
  - intros turn st. unfold in_turns. rewrite !count_mark_empty.
    case_bool_decide; lia.
  - intros st g g' playerId row col Hmove _ Hq.
    destruct (count_mark_after_move st g g' playerId row col Hmove) as [Hcur Hoth].
    apply makeMove_accepted in Hmove as (_ & Hplaying & _ & _ & _ & _ & _ & _ & Hres).
    unfold in_turns in *. rewrite Hplaying in Hq. simpl in Hq.
    destruct (GameLogic.checkGameResult (board g')) as [v|].
    + destruct Hres as (-> & -> & _). simpl. lia.
    + destruct Hres as (-> & -> & _). simpl.
      replace (other (other (currentPlayer g))) with (currentPlayer g)
        by (by destruct (currentPlayer g)).
      lia.
Qed.

(** Closes a closed decidable goal by evaluating its decision. *)
Ltac by_decision :=
  match goal with |- ?P => exact (bool_decide_eq_true_1 P eq_refl) end.

Lemma complete_line_three (b : GameBoard) (l : Line) (m : Mark) :
  l ∈ lines → complete b l m → (3 ≤ count_mark b m)%nat.
Proof.
  intros Hl Hc. destruct l as [[p1 p2] p3]. destruct Hc as (H1 & H2 & H3).
  assert (Hsub : [p1; p2; p3] ⊆+
                 filter (λ p : Position, cellAt b p.1 p.2 = Some (Some m)) positions).
  { apply NoDup_submseteq.
    - clear -Hl. unfold lines in Hl.
      repeat (apply elem_of_cons in Hl as [[= -> -> ->]|Hl]; [by_decision|]).
      by apply elem_of_nil in Hl.
    - intros p Hp. apply list_elem_of_filter.
      assert (Hpos : p ∈ positions).
      { clear -Hl Hp. unfold lines in Hl.
        repeat (apply elem_of_cons in Hl as [[= -> -> ->]|Hl];
                [repeat (apply elem_of_cons in Hp as [->|Hp]; [by_decision|]);
                 by apply elem_of_nil in Hp|]).
        by apply elem_of_nil in Hl. }
      split; [|done].
      repeat (apply elem_of_cons in Hp as [->|Hp]; [done|]).
      by apply elem_of_nil in Hp. }
  apply submseteq_length in Hsub. exact Hsub.
Qed.

(** X23.  In every reachable state the marks on a board were put down in
    turns: the numbers of ['X'] and of ['O'] differ by at most one; and a
    game recorded as won has at least three cells of the winner and two
    of the other mark, so no game is won before the fifth move. *)
Theorem reachable_marks_in_turns (s : GameManager.State) :
  reachable s →
  ∀ roomId room, GameManager.getRoom s roomId = Some room →
    let b := board (game room) in
    (count_mark b X ≤ count_mark b O + 1 ∧ count_mark b O ≤ count_mark b X + 1)%nat ∧
    (∀ m, result (game room) = Some (Win m) →
          (3 ≤ count_mark b m ∧ 2 ≤ count_mark b (other m))%nat).
Proof.
  intros Hreach roomId room Hroom. unfold GameManager.getRoom in Hroom. simpl.
  pose proof (reachable_in_turns s Hreach _ _ Hroom) as Hturns.
  assert (Hdiff : (count_mark (board (game room)) X ≤ count_mark (board (game room)) O + 1
                   ∧ count_mark (board (game room)) O
                     ≤ count_mark (board (game room)) X + 1)%nat).
  { unfold in_turns in Hturns.
    destruct (currentPlayer (game room)); simpl in Hturns;
      case_bool_decide; lia. }
  split; [done|]. intros m Hwin.
  destruct (coh_result s (reachable_Coherent s Hreach) _ _ Hroom) as [Hres _].
  rewrite Hres, checkGameResult_scan in Hwin.
  destruct (scan (line_mark (board (game room))) lines) as [m'|] eqn:E;
    [|by destruct (GameLogic.isBoardFull _)].
  simplify_eq. apply scan_Some in E as (before & l & after & El & Hl & _).
  apply line_mark_Some in Hl.
  assert (Hin : l ∈ lines) by (rewrite El; set_solver).
  pose proof (complete_line_three _ _ _ Hin Hl) as H3.
  destruct m; simpl; lia.
Qed.

Lemma reachable_marks_in_turns_witness :
  reachable session_won ∧
  (count_mark (board game_won) X ≤ count_mark (board game_won) O + 1
   ∧ count_mark (board game_won) O ≤ count_mark (board game_won) X + 1)%nat.
Proof.
  split; [exact session_won_reachable|].
  assert (Hroom : GameManager.getRoom session_won "room-1"
                  = Some {| room_id := "room-1"; game := game_won; spectators := [] |})
    by (vm_compute; reflexivity).
  exact (proj1 (reachable_marks_in_turns session_won session_won_reachable
                  "room-1" {| room_id := "room-1"; game := game_won;
                              spectators := [] |} Hroom)).
Defined.
